(** * cg-sandbox: the sandbox lifecycle classifier and purge executor

    A shallow embedding of [sandbox/sandbox.go] (package [sandbox]) and the
    properties of its grouping, age resolution, classification and purge
    functions. *)

From Stdlib Require Import ZArith QArith Qround Qabs Qpower Lia Lqa Ascii String.
From Stdlib Require Floats.SpecFloat.
From stdpp Require Import base option list strings gmap fin_maps.

Local Open Scope Z_scope.

(** ** Go's [float64], as far as the program uses it

    A finite binary64 value is read as the rational it denotes. An operation
    returns the exact result rounded to the nearest binary64 value, ties to
    even ([round]). Infinities and NaN are left out: the program divides by
    the constants [60*60*1e9] and [24] only and never leaves the range of an
    int64 count of hours. *)
Module float64.

Abbreviation t := Q (only parsing).

(** Binary64: 53 bits of precision, least exponent -1074. *)
Definition prec : Z := 53.
Definition emin : Z := -1074.

Definition pow2 (e : Z) : Q := (2 ^ e)%Q.

(** [ilog2 x] is the integer [e] with [2^e <= x < 2^(e+1)], for [0 < x]. *)
Definition ilog2 (x : Q) : Z :=
  let e := Z.log2 (Qnum x) - Z.log2 (Zpos (Qden x)) in
  if Qle_bool (pow2 e) x then e else e - 1.

(** The nearest integer, ties to even. *)
Definition rne (x : Q) : Z :=
  let f := Qfloor x in
  match Qcompare (x - inject_Z f) (1 # 2) with
  | Lt => f
  | Eq => if Z.even f then f else f + 1
  | Gt => f + 1
  end.

(** The exponent of the unit in the last place of [x]. *)
Definition cexp (x : Q) : Z := Z.max (ilog2 (Qabs x) + 1 - prec) emin.

Definition round (x : Q) : t :=
  if Qeq_bool x 0 then 0%Q
  else Qred (inject_Z (rne (x / pow2 (cexp x))) * pow2 (cexp x)).

Definition add (x y : t) : t := round (x + y).
Definition div (x y : t) : t := round (x / y).

(** The conversions [float64(n)] of an integer and [int(x)] of a float,
    which discards the fraction. *)
Definition of_int (n : Z) : t := round (inject_Z n).
Definition to_int (x : t) : Z :=
  if Qle_bool 0 x then Qfloor x else Qceiling x.

End float64.

(** ** The [time] package, as far as the program uses it

    A [time.Time] is read as the instant it denotes: the number of nanoseconds
    since January 1 of year 1, 00:00:00 UTC, which is the instant of the zero
    [Time]. Location and monotonic reading play no part in the operations used
    here ([IsZero], [Before], [After], [Truncate] and [Sub] on values without a
    monotonic reading all depend on the instant only). A [time.Duration] is an
    int64 count of nanoseconds. *)
Module time.

Abbreviation Time := Z (only parsing).
Abbreviation Duration := Z (only parsing).

Definition Nanosecond : Duration := 1.
Definition Microsecond : Duration := 1000 * Nanosecond.
Definition Millisecond : Duration := 1000 * Microsecond.
Definition Second : Duration := 1000 * Millisecond.
Definition Minute : Duration := 60 * Second.
Definition Hour : Duration := 60 * Minute.

Definition minDuration : Duration := - 2 ^ 63.
Definition maxDuration : Duration := 2 ^ 63 - 1.

(** The zero value of [time.Time] ([var t time.Time]). *)
Definition zero : Time := 0.

Definition IsZero (t : Time) : bool := t =? 0.
Definition Before (t u : Time) : bool := t <? u.
Definition After (t u : Time) : bool := t >? u.
Definition Add (t : Time) (d : Duration) : Time := t + d.

(** [t.Truncate(d)]: [t] rounded down to a multiple of [d] since the zero
    time; [t] itself when [d <= 0]. *)
Definition Truncate (t : Time) (d : Duration) : Time :=
  if d <=? 0 then t else t - t mod d.

(** [t.Sub(u)]: the duration [t - u], saturated at the largest and the
    smallest [Duration]. *)
Definition Sub (t u : Time) : Duration :=
  if t - u >? maxDuration then maxDuration
  else if t - u <? minDuration then minDuration
  else t - u.

(** [d.Hours()]: the whole hours and the rest are converted and added as
    floats. *)
Definition Hours (d : Duration) : float64.t :=
  let hour := Z.quot d Hour in
  let nsec := Z.rem d Hour in
  float64.add (float64.of_int hour)
              (float64.div (float64.of_int nsec) 3600000000000%Q).

Definition RFC3339Nano : string := "2006-01-02T15:04:05.999999999Z07:00".

End time.

(** ** The age in days, in the Standard Library's IEEE 754 arithmetic

    [SpecFloat] is the Standard Library's specification of IEEE 754
    arithmetic, with binary64 at precision 53 and infinity exponent 1024.
    [days] is the computation [d.Hours() / 24] in it, so that the operations
    of [float64] can be compared with it on sample durations. *)
Module binary64.

Definition of_int (n : Z) : SpecFloat.spec_float :=
  SpecFloat.binary_normalize 53 1024 n 0 false.
Definition add : SpecFloat.spec_float → SpecFloat.spec_float → SpecFloat.spec_float :=
  SpecFloat.SFadd 53 1024.
Definition div : SpecFloat.spec_float → SpecFloat.spec_float → SpecFloat.spec_float :=
  SpecFloat.SFdiv 53 1024.

Definition days (d : Z) : SpecFloat.spec_float :=
  let hour := Z.quot d time.Hour in
  let nsec := Z.rem d time.Hour in
  div (add (of_int hour) (div (of_int nsec) (of_int 3600000000000))) (of_int 24).

(** The rational a finite float denotes. *)
Definition value (x : SpecFloat.spec_float) : option Q :=
  match x with
  | SpecFloat.S754_zero _ => Some 0%Q
  | SpecFloat.S754_finite s m e =>
      Some ((if s then - inject_Z (Zpos m) else inject_Z (Zpos m)) * float64.pow2 e)%Q
  | _ => None
  end.

Definition agrees (d : Z) : bool :=
  match value (days d) with
  | Some q => Qeq_bool q (float64.div (time.Hours d) 24%Q)
  | None => false
  end.

(** Durations around hour and day boundaries, at the ends of the int64
    range, and spread over it. *)
Definition samples : list Z :=
  [0; 1; -1; time.Hour - 1; time.Hour; 1 - time.Hour; 24 * time.Hour - 1;
   4800 * time.Hour - 1; 4800 * time.Hour; 1 - 4800 * time.Hour;
   123456789123456789; -123456789123456789;
   time.maxDuration; time.minDuration]
  ++ ((λ k, Z.of_nat k * 100 * (24 * time.Hour) - 1) <$> seq 0 64)
  ++ ((λ k, Z.of_nat k * 144115188075855871 + time.minDuration) <$> seq 0 128).

End binary64.

(** ** The records of [cfclient] the program reads *)
Module cfclient.

Record Space := mkSpace {
  Space_Guid : string;
  Space_Name : string;
  Space_OrganizationGuid : string
}.

Record App := mkApp {
  App_Guid : string;
  App_Name : string;
  App_CreatedAt : string;
  App_SpaceGuid : string
}.

Record ServiceInstance := mkServiceInstance {
  ServiceInstance_Guid : string;
  ServiceInstance_Name : string;
  ServiceInstance_CreatedAt : string;
  ServiceInstance_SpaceGuid : string
}.

End cfclient.
Import cfclient.

(** Go's [error] values: [nil] is [None]. *)
Inductive error := errorString (s : string).

(** ** Grouping resources by space *)

(** The loop body shared by [groupAppsBySpace] and [groupInstancesBySpace]:
    create the bucket when the key is new, then append to it. A Go map read at
    an absent key yields the nil slice, which is [!!!] here. *)
Definition groupStep {A} (SpaceGuid : A → string)
    (grouped : gmap string (list A)) (x : A) : gmap string (list A) :=
  let grouped :=
    match grouped !! SpaceGuid x with
    | None => <[SpaceGuid x := []]> grouped
    | Some _ => grouped
    end in
  <[SpaceGuid x := (grouped !!! SpaceGuid x) ++ [x]]> grouped.

Definition groupAppsBySpace (apps : list App) : gmap string (list App) :=
  fold_left (groupStep App_SpaceGuid) apps ∅.

Definition groupInstancesBySpace (instances : list ServiceInstance)
    : gmap string (list ServiceInstance) :=
  fold_left (groupStep ServiceInstance_SpaceGuid) instances ∅.

(** The resources of a list that carry a given space identifier, in order. *)
Definition inSpace {A} (SpaceGuid : A → string) (g : string) (l : list A) : list A :=
  filter (λ x, SpaceGuid x = g) l.

(** ** Age resolution and classification

    [time.Parse] belongs to Go's library, not to this program: the functions
    take it as a parameter, and what is proved of them holds whatever it
    accepts. *)
Section sandbox.
Context (time_Parse : string → string → time.Time + error).

(** One of the two loops of [GetFirstResource], over the resources of the
    space: stop at the first timestamp that does not parse, otherwise keep
    the earlier instant (any instant replaces a zero [firstResource]). *)
Fixpoint firstCreated {A} (CreatedAt : A → string) (resources : list A)
    (firstResource : time.Time) : time.Time * option error :=
  match resources with
  | [] => (firstResource, None)
  | r :: resources =>
      match time_Parse time.RFC3339Nano (CreatedAt r) with
      | inr err => (firstResource, Some err)
      | inl createdAt =>
          let firstResource :=
            if time.IsZero firstResource || time.Before createdAt firstResource
            then createdAt else firstResource in
          firstCreated CreatedAt resources firstResource
      end
  end.

Definition GetFirstResource (space : Space) (apps : list App)
    (instances : list ServiceInstance) : time.Time * option error :=
  let groupedApps := groupAppsBySpace apps in
  let groupedInstances := groupInstancesBySpace instances in
  let firstResource := time.zero in
  match firstCreated App_CreatedAt (groupedApps !!! Space_Guid space) firstResource with
  | (firstResource, Some err) => (firstResource, Some err)
  | (firstResource, None) =>
      firstCreated ServiceInstance_CreatedAt
        (groupedInstances !!! Space_Guid space) firstResource
  end.

Record SpaceDetails := mkSpaceDetails {
  Timestamp : time.Time;
  SpaceDetails_Space : Space
}.

(** The loop of [ListPurgeSpaces] over the spaces that are left, with the
    two result slices built so far. On an error the named results are
    returned as they stand. *)
Fixpoint purgeLoop (apps : list App) (instances : list ServiceInstance)
    (now : time.Time) (notifyThreshold purgeThreshold : Z)
    (timeStartsAt : time.Time) (spaces : list Space)
    (toNotify toPurge : list SpaceDetails)
    : list SpaceDetails * list SpaceDetails * option error :=
  match spaces with
  | [] => (toNotify, toPurge, None)
  | space :: spaces =>
      let continue := purgeLoop apps instances now notifyThreshold
                        purgeThreshold timeStartsAt spaces in
      match GetFirstResource space apps instances with
      | (_, Some err) => (toNotify, toPurge, Some err)
      | (firstResource, None) =>
          if time.IsZero firstResource then continue toNotify toPurge
          else
            let firstResource :=
              if time.After timeStartsAt firstResource then timeStartsAt
              else firstResource in
            let firstResource := time.Truncate firstResource (24 * time.Hour) in
            let delta :=
              float64.to_int
                (float64.div (time.Hours (time.Sub now firstResource)) 24%Q) in
            if delta >=? purgeThreshold then
              continue toNotify (toPurge ++ [mkSpaceDetails firstResource space])
            else if delta >=? notifyThreshold then
              continue (toNotify ++ [mkSpaceDetails firstResource space]) toPurge
            else continue toNotify toPurge
      end
  end.

Definition ListPurgeSpaces (spaces : list Space) (apps : list App)
    (instances : list ServiceInstance) (now : time.Time)
    (notifyThreshold purgeThreshold : Z) (timeStartsAt : time.Time)
    : list SpaceDetails * list SpaceDetails * option error :=
  purgeLoop apps instances now notifyThreshold purgeThreshold timeStartsAt
    spaces [] [].

End sandbox.

(** ** The purge executor

    The platform behind [cfclient.Client] is a state of some type [W]; a call
    answers and leaves a new state. The calls made are logged next to it. *)
Inductive Call :=
  | CallDeleteSpace (guid : string) (recursive async : bool)
  | CallListAppsByQuery (query : gmap string (list string))
  | CallDeleteApp (guid : string).

Record Client (W : Type) := mkClient {
  DeleteSpace : string → bool → bool → W → option error * W;
  ListAppsByQuery : gmap string (list string) → W → (list App + error) * W;
  DeleteApp : string → W → option error * W
}.
Arguments DeleteSpace {W}.
Arguments ListAppsByQuery {W}.
Arguments DeleteApp {W}.

Section purge.
Context {W : Type} (client : Client W).

(** A computation on the platform and the log of calls. *)
Definition M (A : Type) : Type := W * list Call → A * (W * list Call).

Definition ret {A} (a : A) : M A := λ s, (a, s).
Definition bind {A B} (m : M A) (k : A → M B) : M B :=
  λ s, let '(a, s) := m s in k a s.

Definition call {A} (c : Call) (f : W → A * W) : M A :=
  λ '(w, log), let '(a, w) := f w in (a, (w, log ++ [c])).

Local Notation "'do' x <- m ; k" := (bind m (λ x, k))
  (at level 10, x name, m at level 100, k at level 200).

(** The loop over the apps of the space: the first failed deletion ends
    it. *)
Fixpoint deleteApps (apps : list App) : M (option error) :=
  match apps with
  | [] => ret None
  | app :: apps =>
      do err <- call (CallDeleteApp (App_Guid app))
                  (DeleteApp client (App_Guid app));
      match err with
      | Some err => ret (Some err)
      | None => deleteApps apps
      end
  end.

Definition PurgeSpace (space : Space) : M (option error) :=
  do spaceErr <- call (CallDeleteSpace (Space_Guid space) true false)
                   (DeleteSpace client (Space_Guid space) true false);
  match spaceErr with
  | Some _ =>
      let query : gmap string (list string) :=
        {[ "q" := ["space_guid:" +:+ Space_Guid space] ]} in
      do listed <- call (CallListAppsByQuery query)
                     (ListAppsByQuery client query);
      match listed with
      | inr err => ret (Some err)
      | inl apps =>
          do err <- deleteApps apps;
          match err with
          | Some err => ret (Some err)
          | None => ret spaceErr
          end
      end
  | None => ret None
  end.

(** The platform after the apps of a list were deleted one after the
    other. *)
Definition afterDeletes (apps : list App) (w : W) : W :=
  fold_left (λ w app, (DeleteApp client (App_Guid app) w).2) apps w.

(** Every app of the list is deleted without error, each on the platform the
    deletions before it left. *)
Definition AllDeleted (apps : list App) (w : W) : Prop :=
  ∀ i a, apps !! i = Some a →
    (DeleteApp client (App_Guid a) (afterDeletes (take i apps) w)).1 = None.

Definition deleteCalls (apps : list App) : list Call :=
  (λ a, CallDeleteApp (App_Guid a)) <$> apps.

End purge.

(** ** Recipients of a notification

    Further records of [cfclient] and of [net/mail]. [mail.ParseAddress]
    belongs to Go's library: [ListRecipients] takes it as a parameter. *)
Record SpaceRole := mkSpaceRole {
  SpaceRole_Guid : string;
  SpaceRole_Username : string;
  SpaceRole_SpaceRoles : list string
}.

Record Org := mkOrg {
  Org_Guid : string;
  Org_Name : string
}.

Record Address := mkAddress {
  Address_Name : string;
  Address_Address : string
}.

Section recipients.
Context (mail_ParseAddress : string → Address + error).

(** The inner loop of [ListRecipients], over the role types of one role. *)
Fixpoint roleTypesLoop (guid : string) (roleTypes : list string)
    (developers managers : list string) : list string * list string :=
  match roleTypes with
  | [] => (developers, managers)
  | roleType :: roleTypes =>
      if String.eqb roleType "space_developer" then
        roleTypesLoop guid roleTypes (developers ++ [guid]) managers
      else if String.eqb roleType "space_manager" then
        roleTypesLoop guid roleTypes developers (managers ++ [guid])
      else roleTypesLoop guid roleTypes developers managers
  end.

(** The loop of [ListRecipients] over the roles that are left, with the three
    result slices built so far. [userGUIDs] is read for the presence of the
    key only. *)
Fixpoint recipientsLoop (userGUIDs : gmap string bool) (roles : list SpaceRole)
    (addresses developers managers : list string)
    : list string * list string * list string :=
  match roles with
  | [] => (addresses, developers, managers)
  | role :: roles =>
      match userGUIDs !! SpaceRole_Guid role with
      | None => recipientsLoop userGUIDs roles addresses developers managers
      | Some _ =>
          let addresses :=
            match mail_ParseAddress (SpaceRole_Username role) with
            | inl _ => addresses ++ [SpaceRole_Username role]
            | inr _ => addresses
            end in
          let '(developers, managers) :=
            roleTypesLoop (SpaceRole_Guid role) (SpaceRole_SpaceRoles role)
              developers managers in
          recipientsLoop userGUIDs roles addresses developers managers
      end
  end.

Definition ListRecipients (userGUIDs : gmap string bool) (roles : list SpaceRole)
    : list string * list string * list string :=
  recipientsLoop userGUIDs roles [] [] [].

End recipients.

(** ** Listing organizations and their resources

    The other calls of [cfclient.Client] the program makes, beside those of
    [Client]. Each answers with a slice and an error, as in Go, and leaves a
    new state of the platform. *)
Record Platform (W : Type) := mkPlatform {
  Platform_Client : Client W;
  ListOrgs : W → (list Org * option error) * W;
  ListServiceInstancesByQuery :
    gmap string (list string) → W → (list ServiceInstance * option error) * W;
  OrgSpaces : string → W → (list Space * option error) * W
}.
Arguments Platform_Client {W}.
Arguments ListOrgs {W}.
Arguments ListServiceInstancesByQuery {W}.
Arguments OrgSpaces {W}.

Section listing.
Context {W : Type} (client : Platform W).

(** [strings.HasPrefix(s, prefix)] is [String.prefix prefix s]. *)
Definition ListSandboxOrgs (prefix : string) (w : W)
    : (list Org * option error) * W :=
  let sandboxes : list Org := [] in
  match ListOrgs client w with
  | ((_, Some err), w) => ((sandboxes, Some err), w)
  | ((orgs, None), w) =>
      ((fold_left
          (λ sandboxes org,
             if String.prefix prefix (Org_Name org) then sandboxes ++ [org]
             else sandboxes)
          orgs sandboxes, None), w)
  end.

(** The results are named in Go: a call that fails leaves the slices of the
    calls after it nil. For the apps, [Client] keeps no slice next to an
    error, and the result is nil then. *)
Definition ListOrgResources (org : Org) (w : W)
    : (list Space * list App * list ServiceInstance * option error) * W :=
  let query : gmap string (list string) :=
    {[ "q" := ["organization_guid:" +:+ Org_Guid org] ]} in
  match ListAppsByQuery (Platform_Client client) query w with
  | (inr err, w) => (([], [], [], Some err), w)
  | (inl apps, w) =>
      match ListServiceInstancesByQuery client query w with
      | ((instances, Some err), w) => (([], apps, instances, Some err), w)
      | ((instances, None), w) =>
          let '((spaces, err), w) := OrgSpaces client (Org_Guid org) w in
          ((spaces, apps, instances, err), w)
      end
  end.

End listing.

(** ** Sending mail

    What the program hands to [gomail] and [crypto]: the dialer and the
    message are records of the values it sets, a certificate pool is the list
    of the PEM texts appended to it. Dialing and sending act on a state [W]
    of the mail transport; [S] is the type of an open connection. *)
Record SMTPOptions := mkSMTPOptions {
  SMTPHost : string;
  SMTPPort : Z;
  SMTPUser : string;
  SMTPPass : string;
  SMTPCert : string
}.

Record TLSConfig := mkTLSConfig {
  ServerName : string;
  RootCAs : list string
}.

Record Dialer := mkDialer {
  Dialer_Host : string;
  Dialer_Port : Z;
  Dialer_Username : string;
  Dialer_Password : string;
  Dialer_TLSConfig : option TLSConfig
}.

Record Message := mkMessage {
  Message_Headers : gmap string (list string);
  Message_ContentType : string;
  Message_Body : string
}.

Record Mailer (W S : Type) := mkMailer {
  Dial : Dialer → W → (S + error) * W;
  Send : S → Message → W → option error * W
}.
Arguments Dial {W S}.
Arguments Send {W S}.

Section mail.
Context {W S : Type} (gomail : Mailer W S).

Definition SendMail (opts : SMTPOptions) (sender subject body : string)
    (recipients : list string) (w : W) : option error * W :=
  if (length recipients =? 0)%nat then (None, w)
  else
    let d := mkDialer (SMTPHost opts) (SMTPPort opts) (SMTPUser opts)
               (SMTPPass opts) None in
    let d :=
      if negb (String.eqb (SMTPCert opts) "") then
        let pool := [SMTPCert opts] in
        mkDialer (Dialer_Host d) (Dialer_Port d) (Dialer_Username d)
          (Dialer_Password d)
          (Some (mkTLSConfig (SMTPHost opts) pool))
      else d in
    match Dial gomail d w with
    | (inr err, w) => (Some err, w)
    | (inl s, w) =>
        let m :=
          mkMessage
            (<["From" := [sender]]>
               (<["Subject" := [subject]]> (<["To" := recipients]> ∅)))
            "text/html" body in
        Send gomail s m w
    end.

End mail.

(** ** A parser for the timestamps of the examples

    The examples at concrete inputs need a concrete [time.Parse]. [Parse]
    reads, for the layout [RFC3339Nano], the timestamps written
    [YYYY-MM-DDTHH:MM:SSZ] (UTC, no fraction of a second) and refuses every
    other string. On those timestamps it yields the instant of that date in
    the proleptic Gregorian calendar, counted from January 1 of year 1. *)
Module rfc3339.

Definition digit (c : ascii) : option Z :=
  let n := Z.of_N (N_of_ascii c) in
  if (48 <=? n) && (n <=? 57) then Some (n - 48) else None.

Fixpoint number (cs : list ascii) (acc : Z) : option Z :=
  match cs with
  | [] => Some acc
  | c :: cs =>
      match digit c with
      | Some d => number cs (10 * acc + d)
      | None => None
      end
  end.

Definition isLeap (year : Z) : bool :=
  (year mod 4 =? 0) && (negb (year mod 100 =? 0) || (year mod 400 =? 0)).

Definition daysIn (month year : Z) : Z :=
  if month =? 2 then (if isLeap year then 29 else 28)
  else if (month =? 4) || (month =? 6) || (month =? 9) || (month =? 11) then 30
  else 31.

(** Days of the year before the first of the month. *)
Definition daysBefore (month year : Z) : Z :=
  fold_left (λ n m, n + daysIn (Z.of_nat m) year) (seq 1 (Z.to_nat (month - 1))) 0.

(** Days from January 1 of year 1 to January 1 of the year. *)
Definition daysSinceYear1 (year : Z) : Z :=
  let y := year - 1 in 365 * y + y / 4 - y / 100 + y / 400.

Definition Date (year month day hour min sec : Z) : time.Time :=
  ((((daysSinceYear1 year + daysBefore month year + (day - 1)) * 24 + hour) * 60
    + min) * 60 + sec) * time.Second.

Definition Parse (layout value : string) : time.Time + error :=
  if negb (String.eqb layout time.RFC3339Nano) then
    inr (errorString "unknown layout")
  else
    match list_ascii_of_string value with
    | [y1; y2; y3; y4; c1; m1; m2; c2; d1; d2; c3; h1; h2; c4; i1; i2; c5; s1; s2; c6] =>
        match number [y1; y2; y3; y4] 0, number [m1; m2] 0, number [d1; d2] 0,
              number [h1; h2] 0, number [i1; i2] 0, number [s1; s2] 0 with
        | Some year, Some month, Some day, Some hour, Some min, Some sec =>
            if String.eqb (string_of_list_ascii [c1; c2; c3; c4; c5; c6]) "--T::Z"
               && (1 <=? month) && (month <=? 12)
               && (1 <=? day) && (day <=? daysIn month year)
               && (hour <? 24) && (min <? 60) && (sec <? 60)
            then inl (Date year month day hour min sec)
            else inr (errorString ("cannot parse " +:+ value))
        | _, _, _, _, _, _ => inr (errorString ("cannot parse " +:+ value))
        end
    | _ => inr (errorString ("cannot parse " +:+ value))
    end.

End rfc3339.

(** * Vocabulary of the properties *)

(** What it is for [m] to group [l] by [key]: the buckets together hold the
    resources of [l], each as often as [l] does; the bucket at [k] is the
    resources of [l] with key [k], in the order of [l], so a resource is in
    the bucket of its own key and there as often as in [l]; a bucket holds
    resources of its key only; and a key has an entry exactly when some
    resource of [l] carries it. *)
Definition Grouped {A} (key : A → string) (l : list A)
    (m : gmap string (list A)) : Prop :=
  concat (snd <$> map_to_list m) ≡ₚ l
  ∧ (∀ k bucket, m !! k = Some bucket → bucket = inSpace key k l)
  ∧ (∀ k bucket x, m !! k = Some bucket → x ∈ bucket → key x = k)
  ∧ (∀ x, x ∈ l → m !! key x = Some (inSpace key (key x) l))
  ∧ (∀ k, m !! k = None ↔ ∀ x, x ∈ l → key x ≠ k).

(** A space has a malformed resource, with parse error [e], when one of the
    apps or service instances that carry its identifier has a creation
    timestamp on which [time.Parse] fails with [e]. *)
Definition MalformedWith (time_Parse : string → string → time.Time + error)
    (space : Space) (apps : list App) (instances : list ServiceInstance)
    (e : error) : Prop :=
  (∃ a, a ∈ apps ∧ App_SpaceGuid a = Space_Guid space
        ∧ time_Parse time.RFC3339Nano (App_CreatedAt a) = inr e)
  ∨ (∃ i, i ∈ instances ∧ ServiceInstance_SpaceGuid i = Space_Guid space
          ∧ time_Parse time.RFC3339Nano (ServiceInstance_CreatedAt i) = inr e).

(** Every app and service instance of the space has a creation timestamp
    that parses: to any instant ([Parses]), or to an instant other than the
    zero instant ([ParsesNonZero]). *)
Definition Parses (time_Parse : string → string → time.Time + error)
    (space : Space) (apps : list App) (instances : list ServiceInstance) : Prop :=
  (∀ a, a ∈ apps → App_SpaceGuid a = Space_Guid space →
     ∃ c, time_Parse time.RFC3339Nano (App_CreatedAt a) = inl c)
  ∧ (∀ i, i ∈ instances → ServiceInstance_SpaceGuid i = Space_Guid space →
       ∃ c, time_Parse time.RFC3339Nano (ServiceInstance_CreatedAt i) = inl c).

Definition ParsesNonZero (time_Parse : string → string → time.Time + error)
    (space : Space) (apps : list App) (instances : list ServiceInstance) : Prop :=
  (∀ a, a ∈ apps → App_SpaceGuid a = Space_Guid space →
     ∃ c, time_Parse time.RFC3339Nano (App_CreatedAt a) = inl c
          ∧ time.IsZero c = false)
  ∧ (∀ i, i ∈ instances → ServiceInstance_SpaceGuid i = Space_Guid space →
       ∃ c, time_Parse time.RFC3339Nano (ServiceInstance_CreatedAt i) = inl c
            ∧ time.IsZero c = false).

(** The space has no app and no service instance. *)
Definition NoResources (space : Space) (apps : list App)
    (instances : list ServiceInstance) : Prop :=
  (∀ a, a ∈ apps → App_SpaceGuid a ≠ Space_Guid space)
  ∧ (∀ i, i ∈ instances → ServiceInstance_SpaceGuid i ≠ Space_Guid space).

(** [t] is the least creation instant of the apps and service instances of
    the space: the instant of one of them, and none of them is earlier. *)
Definition MinimumCreated (time_Parse : string → string → time.Time + error)
    (space : Space) (apps : list App) (instances : list ServiceInstance)
    (t : Z) : Prop :=
  ((∃ a, a ∈ apps ∧ App_SpaceGuid a = Space_Guid space
         ∧ time_Parse time.RFC3339Nano (App_CreatedAt a) = inl t)
   ∨ (∃ i, i ∈ instances ∧ ServiceInstance_SpaceGuid i = Space_Guid space
           ∧ time_Parse time.RFC3339Nano (ServiceInstance_CreatedAt i) = inl t))
  ∧ (∀ a c, a ∈ apps → App_SpaceGuid a = Space_Guid space →
       time_Parse time.RFC3339Nano (App_CreatedAt a) = inl c →
       time.Before c t = false)
  ∧ (∀ i c, i ∈ instances → ServiceInstance_SpaceGuid i = Space_Guid space →
       time_Parse time.RFC3339Nano (ServiceInstance_CreatedAt i) = inl c →
       time.Before c t = false).

Definition Malformed (time_Parse : string → string → time.Time + error)
    (space : Space) (apps : list App) (instances : list ServiceInstance) : Prop :=
  ∃ e, MalformedWith time_Parse space apps instances e.

(** The anchor [ListPurgeSpaces] derives from the instant [GetFirstResource]
    returned (lines 223 to 227), and the age in days it compares with the
    thresholds (line 228). *)
Definition anchorOf (timeStartsAt firstResource : Z) : Z :=
  time.Truncate
    (if time.After timeStartsAt firstResource then timeStartsAt else firstResource)
    (24 * time.Hour).

Definition deltaOf (now anchor : Z) : Z :=
  float64.to_int (float64.div (time.Hours (time.Sub now anchor)) 24%Q).

(** An entry stands for a space whose first resource was resolved without
    error to an instant other than the zero instant, and carries the anchor
    derived from it. *)
Definition Anchored (time_Parse : string → string → time.Time + error)
    (apps : list App) (instances : list ServiceInstance) (timeStartsAt : Z)
    (spaces : list Space) (d : SpaceDetails) : Prop :=
  ∃ f, SpaceDetails_Space d ∈ spaces
    ∧ GetFirstResource time_Parse (SpaceDetails_Space d) apps instances = (f, None)
    ∧ time.IsZero f = false
    ∧ Timestamp d = anchorOf timeStartsAt f.

(** ** Inputs of the examples *)

Module example.

Definition epoch : Z := rfc3339.Date 1970 1 1 0 0 0.
Definition day (n : Z) : Z := rfc3339.Date 2020 1 1 0 0 0 + n * (24 * time.Hour).

Definition spaceA : Space := mkSpace "A" "alpha" "org".
Definition spaceB : Space := mkSpace "B" "beta" "org".
Definition spaceC : Space := mkSpace "C" "gamma" "org".
Definition spaceD : Space := mkSpace "D" "delta" "org".
Definition spaces : list Space := [spaceA; spaceB; spaceC; spaceD].

Definition appA : App := mkApp "app-a" "web" "2020-01-01T00:00:00Z" "A".
Definition appD : App := mkApp "app-d" "web" "2020-01-19T00:00:00Z" "D".
Definition apps : list App := [appA; appD].

Definition instanceB : ServiceInstance :=
  mkServiceInstance "instance-b" "db" "2020-01-11T00:00:00Z" "B".
Definition instances : list ServiceInstance := [instanceB].

Definition entryA : SpaceDetails := mkSpaceDetails (day 0) spaceA.
Definition entryB : SpaceDetails := mkSpaceDetails (day 10) spaceB.

(** An app of space B whose creation timestamp does not parse. *)
Definition appBad : App := mkApp "app-bad" "web" "yesterday" "B".

(** An app of space A created at the zero instant. *)
Definition appYear1 : App := mkApp "app-1" "web" "0001-01-01T00:00:00Z" "A".

(** An epoch floor that is not on a 24-hour boundary: noon of January 5. *)
Definition noon : Z := rfc3339.Date 2020 1 5 12 0 0.

(** A platform for the examples: its state is the apps that exist. Deleting
    the space succeeds or fails as [spaceOk] says, listing likewise as
    [listOk] says, and every app but the one named [stuck] can be deleted. *)
Definition client (spaceOk listOk : bool) (stuck : string) : Client (list App) :=
  {| DeleteSpace := λ guid recursive async w,
       if spaceOk then (None, []) else (Some (errorString "space not deleted"), w);
     ListAppsByQuery := λ query w,
       if listOk then (inl w, w) else (inr (errorString "apps not listed"), w);
     DeleteApp := λ guid w,
       if String.eqb guid stuck then (Some (errorString "app not deleted"), w)
       else (None, filter (λ a, App_Guid a ≠ guid) w) |}.

End example.

(** ** Vocabulary of the further properties *)

(** The resources of a space in the order [GetFirstResource] reads them: its
    apps, then its service instances. *)
Definition resourcesOf (space : Space) (apps : list App)
    (instances : list ServiceInstance) : list (App + ServiceInstance) :=
  (inl <$> inSpace App_SpaceGuid (Space_Guid space) apps)
  ++ (inr <$> inSpace ServiceInstance_SpaceGuid (Space_Guid space) instances).

Definition createdAt (r : App + ServiceInstance) : string :=
  match r with
  | inl app => App_CreatedAt app
  | inr instance => ServiceInstance_CreatedAt instance
  end.

(** The user of the role is a key of [userGUIDs]. *)
Definition Known (userGUIDs : gmap string bool) (role : SpaceRole) : Prop :=
  is_Some (userGUIDs !! SpaceRole_Guid role).

(** The identifier of the role, once for each of its role types that is
    [kind]. *)
Definition rolesOf (kind : string) (role : SpaceRole) : list string :=
  (λ _, SpaceRole_Guid role) <$> filter (λ t, t = kind) (SpaceRole_SpaceRoles role).

(** The user name of the role when it parses as a mail address. *)
Definition addressOf (mail_ParseAddress : string → Address + error)
    (role : SpaceRole) : list string :=
  match mail_ParseAddress (SpaceRole_Username role) with
  | inl _ => [SpaceRole_Username role]
  | inr _ => []
  end.

(** ** Inputs of the examples for recipients, organizations and mail *)

Module example_org.

(** A stand-in for [mail.ParseAddress]: a string with an at sign is an
    address. *)
Definition parseAddress (s : string) : Address + error :=
  match index 0 "@" s with
  | Some _ => inl (mkAddress EmptyString s)
  | None => inr (errorString "mail: missing @")
  end.

Definition alice : SpaceRole :=
  mkSpaceRole "u1" "alice@example.com" ["space_developer"; "space_manager"].
Definition bob : SpaceRole := mkSpaceRole "u2" "bob" ["space_manager"].
Definition carol : SpaceRole :=
  mkSpaceRole "u3" "carol@example.com" ["space_developer"].
Definition roles : list SpaceRole := [alice; bob; carol].

(** Alice and Bob are keys, Bob with [false]; Carol is not. *)
Definition userGUIDs : gmap string bool := {[ "u1" := true; "u2" := false ]}.
Definition userGUIDs' : gmap string bool := {[ "u1" := false; "u2" := true ]}.

Definition gsa : Org := mkOrg "o1" "sandbox-gsa".
Definition cloud : Org := mkOrg "o2" "cloud-gov".
Definition epa : Org := mkOrg "o3" "sandbox-epa".
Definition orgs : list Org := [gsa; cloud; epa].

(** A platform whose state counts the calls made; it lists [orgs]. *)
Definition platform : Platform nat :=
  {| Platform_Client :=
       {| DeleteSpace := λ guid recursive async w, (None, S w);
          ListAppsByQuery := λ query w, (inl example.apps, S w);
          DeleteApp := λ guid w, (None, S w) |};
     ListOrgs := λ w, ((orgs, None), S w);
     ListServiceInstancesByQuery := λ query w, ((example.instances, None), S w);
     OrgSpaces := λ guid w, ((example.spaces, None), S w) |}.

(** An app of space B whose creation timestamp parses. *)
Definition appB : App := mkApp "app-b" "web" "2020-01-05T00:00:00Z" "B".

End example_org.

(** ** Inputs of the examples with several resources in a space *)

Module example_times.

(** Space A with three apps and three service instances, none created at
    midnight; the earliest is a service instance that is neither the first
    nor the last of its list. Space B has one service instance, space D the
    app of the scenario. *)
Definition appA1 : App := mkApp "app-a1" "web" "2020-01-03T08:00:00Z" "A".
Definition appA2 : App := mkApp "app-a2" "worker" "2020-01-01T13:45:10Z" "A".
Definition appA3 : App := mkApp "app-a3" "cron" "2020-01-05T21:30:00Z" "A".
Definition apps : list App := [appA1; appA2; example.appD; appA3].

Definition instanceA1 : ServiceInstance :=
  mkServiceInstance "instance-a1" "db" "2020-01-04T06:15:00Z" "A".
Definition instanceA2 : ServiceInstance :=
  mkServiceInstance "instance-a2" "queue" "2019-12-30T10:00:00Z" "A".
Definition instanceA3 : ServiceInstance :=
  mkServiceInstance "instance-a3" "cache" "2020-01-02T10:00:00Z" "A".
Definition instanceB1 : ServiceInstance :=
  mkServiceInstance "instance-b1" "db" "2020-01-11T19:20:30Z" "B".
Definition instances : list ServiceInstance :=
  [instanceA1; instanceA2; instanceB1; instanceA3].

(** The instant of the earliest resource of space A, and an instant in the
    morning of January 21. *)
Definition earliestA : Z := rfc3339.Date 2019 12 30 10 0 0.
Definition now : Z := rfc3339.Date 2020 1 21 9 30 0.

(** The entries of the spaces: space A anchored at December 30, and at
    January 5 when the epoch floor is [example.noon]. *)
Definition entryA : SpaceDetails := mkSpaceDetails (example.day (-2)) example.spaceA.
Definition entryB : SpaceDetails := mkSpaceDetails (example.day 10) example.spaceB.
Definition entryD : SpaceDetails := mkSpaceDetails (example.day 18) example.spaceD.
Definition clampedA : SpaceDetails := mkSpaceDetails (example.day 4) example.spaceA.

End example_times.

(** * Properties of the float and time operations *)

Section float64_lemmas.
Import float64.
Local Open Scope Q_scope.

Lemma pow2_pos e : 0 < pow2 e.
Proof. apply Qpower_0_lt. reflexivity. Qed.

Lemma pow2_le a b : (a <= b)%Z -> pow2 a <= pow2 b.
Proof. intros. apply Qpower_le_compat_l; [lia|]. discriminate. Qed.

Lemma pow2_lt a b : (a < b)%Z -> pow2 a < pow2 b.
Proof. intros. apply Qpower_lt_compat_l; [lia|]. reflexivity. Qed.

Lemma pow2_add a b : pow2 (a + b) == pow2 a * pow2 b.
Proof. apply Qpower_plus. discriminate. Qed.

Lemma pow2_Z e : (0 <= e)%Z -> pow2 e == inject_Z (2 ^ e).
Proof. intros. unfold pow2. rewrite Zpower_Qpower by lia. reflexivity. Qed.

Lemma pow2_lt_inv a b : pow2 a < pow2 b -> (a < b)%Z.
Proof. intros H. apply (Qpower_lt_compat_l_inv 2); [exact H | reflexivity]. Qed.

Lemma log2_bounds n : (0 < n)%Z ->
  pow2 (Z.log2 n) <= inject_Z n /\ inject_Z n < pow2 (Z.log2 n + 1).
Proof.
  intros Hn. pose proof (Z.log2_spec n Hn) as [H1 H2].
  pose proof (Z.log2_nonneg n).
  rewrite !pow2_Z by lia. rewrite <- Zle_Qle, <- Zlt_Qlt.
  replace (Z.log2 n + 1)%Z with (Z.succ (Z.log2 n)) by lia. lia.
Qed.

Lemma ilog2_spec x : 0 < x -> pow2 (ilog2 x) <= x /\ x < pow2 (ilog2 x + 1).
Proof.
  intros Hx. unfold ilog2.
  assert (Hn : (0 < Qnum x)%Z) by (unfold Qlt in Hx; simpl in Hx; lia).
  destruct (log2_bounds _ Hn) as [Hn1 Hn2].
  destruct (log2_bounds (Z.pos (Qden x)) eq_refl) as [Hd1 Hd2].
  set (ln := Z.log2 (Qnum x)) in *. set (ld := Z.log2 (Z.pos (Qden x))) in *.
  assert (Hq : x * inject_Z (Z.pos (Qden x)) == inject_Z (Qnum x)).
  { destruct x as [n d]. unfold Qeq, Qmult, inject_Z. simpl. lia. }
  set (n' := inject_Z (Qnum x)) in *. set (d' := inject_Z (Z.pos (Qden x))) in *.
  assert (Hd0 : 0 < d') by reflexivity.
  pose proof (pow2_pos ld) as HL.
  destruct (Qle_bool (pow2 (ln - ld)) x) eqn:E.
  - apply Qle_bool_iff in E. split; [exact E|].
    assert (Hs : pow2 (ln + 1) == pow2 (ln - ld + 1) * pow2 ld).
    { rewrite <- pow2_add. replace (ln - ld + 1 + ld)%Z with (ln + 1)%Z by lia. reflexivity. }
    pose proof (pow2_pos (ln - ld + 1)).
    apply Qnot_le_lt. intros Hc. nra.
  - assert (E' : x < pow2 (ln - ld)).
    { apply Qnot_le_lt. intros Hc. apply Qle_bool_iff in Hc. congruence. }
    replace (ln - ld - 1 + 1)%Z with (ln - ld)%Z by lia.
    split; [|exact E'].
    assert (Hs : pow2 ln == pow2 (ln - ld - 1) * pow2 (ld + 1)).
    { rewrite <- pow2_add. replace (ln - ld - 1 + (ld + 1))%Z with ln by lia. reflexivity. }
    pose proof (pow2_pos (ln - ld - 1)).
    apply Qnot_lt_le. intros Hc. nra.
Qed.

Lemma ilog2_unique x e : pow2 e <= x -> x < pow2 (e + 1) -> ilog2 x = e.
Proof.
  intros H1 H2.
  assert (Hx : 0 < x) by (pose proof (pow2_pos e); lra).
  destruct (ilog2_spec x Hx) as [H3 H4].
  assert (ilog2 x < e + 1)%Z by (apply pow2_lt_inv; lra).
  assert (e < ilog2 x + 1)%Z by (apply pow2_lt_inv; lra).
  lia.
Qed.

Lemma ilog2_le x y : 0 < x -> x <= y -> (ilog2 x <= ilog2 y)%Z.
Proof.
  intros Hx Hxy.
  destruct (ilog2_spec x Hx) as [H1 _].
  destruct (ilog2_spec y ltac:(lra)) as [_ H2].
  assert (ilog2 x < ilog2 y + 1)%Z by (apply pow2_lt_inv; lra). lia.
Qed.

Ltac qcmp :=
  repeat match goal with
  | H : (_ ?= _) = Lt |- _ => apply Qlt_alt in H
  | H : (_ ?= _) = Gt |- _ => apply Qgt_alt in H
  | H : (_ ?= _) = Eq |- _ => apply Qeq_alt in H
  end.

Lemma rne_bounds x : inject_Z (Qfloor x) <= x /\ x < inject_Z (Qfloor x) + 1.
Proof.
  split; [apply Qfloor_le|]. pose proof (Qlt_floor x) as H.
  rewrite inject_Z_plus in H. exact H.
Qed.

Lemma Qfloor_unique x z : inject_Z z <= x -> x < inject_Z z + 1 -> Qfloor x = z.
Proof.
  intros H1 H2. destruct (rne_bounds x) as [H3 H4].
  assert (inject_Z z < inject_Z (Qfloor x + 1))
    by (rewrite inject_Z_plus; change (inject_Z 1) with 1; lra).
  assert (inject_Z (Qfloor x) < inject_Z (z + 1))
    by (rewrite inject_Z_plus; change (inject_Z 1) with 1; lra).
  rewrite <- Zlt_Qlt in *. lia.
Qed.

Lemma rne_floor x : (Qfloor x <= rne x <= Qfloor x + 1)%Z.
Proof.
  unfold rne. destruct (_ ?= _); [destruct (Z.even _)|..]; lia.
Qed.

Lemma rne_le x y : x <= y -> (rne x <= rne y)%Z.
Proof.
  intros Hxy. pose proof (Qfloor_resp_le _ _ Hxy) as Hf.
  destruct (Z.eq_dec (Qfloor x) (Qfloor y)) as [Heq|Hne].
  - unfold rne. rewrite <- Heq.
    destruct (x - inject_Z (Qfloor x) ?= 1 # 2) eqn:Ex;
    destruct (y - inject_Z (Qfloor x) ?= 1 # 2) eqn:Ey;
    try (destruct (Z.even (Qfloor x))); try lia;
    exfalso; qcmp; lra.
  - pose proof (rne_floor x). pose proof (rne_floor y). lia.
Qed.

Lemma rne_Z z : rne (inject_Z z) = z.
Proof.
  unfold rne. rewrite Qfloor_Z.
  replace (inject_Z z - inject_Z z ?= 1 # 2) with Lt; [reflexivity|].
  symmetry. rewrite <- Qlt_alt. lra.
Qed.

Lemma rne_proper x y : x == y -> rne x = rne y.
Proof.
  intros H. apply Z.le_antisymm; apply rne_le; lra.
Qed.

Lemma rne_opp x : rne (- x) = (- rne x)%Z.
Proof.
  destruct (rne_bounds x) as [H1 H2]. destruct (rne_bounds (- x)) as [H3 H4].
  destruct (Qeq_dec x (inject_Z (Qfloor x))) as [Hi|Hi].
  - rewrite (rne_proper x _ Hi). rewrite (rne_proper (- x) (inject_Z (- Qfloor x))).
    + now rewrite !rne_Z.
    + rewrite inject_Z_opp. lra.
  - assert (H1' : inject_Z (Qfloor x) < x).
    { apply Qle_lteq in H1. destruct H1 as [H1|H1]; [exact H1|]. exfalso. apply Hi. lra. }
    assert (Hi' : inject_Z (- Qfloor x - 1) == - inject_Z (Qfloor x) - 1).
    { unfold Z.sub. rewrite inject_Z_plus, inject_Z_opp.
      change (inject_Z (- (1))) with (-1 # 1). lra. }
    assert (Hf : Qfloor (- x) = (- Qfloor x - 1)%Z).
    { apply Qfloor_unique; lra. }
    unfold rne. rewrite Hf.
    destruct (x - inject_Z (Qfloor x) ?= 1 # 2) eqn:Ex;
    destruct (- x - inject_Z (- Qfloor x - 1) ?= 1 # 2) eqn:Ey;
    qcmp; try (exfalso; lra).
    + replace (- Qfloor x - 1)%Z with (- (Qfloor x + 1))%Z by lia.
      rewrite Z.even_opp. rewrite Z.even_add. simpl.
      destruct (Z.even (Qfloor x)); simpl; lia.
    + lia.
    + lia.
Qed.

Lemma ilog2_proper x y : 0 < x -> x == y -> ilog2 x = ilog2 y.
Proof.
  intros Hx Hxy. destruct (ilog2_spec x Hx) as [H1 H2].
  symmetry. apply ilog2_unique; lra.
Qed.

Lemma Qabs_nz x : ~ x == 0 -> 0 < Qabs x.
Proof.
  intros Hx. destruct (Qlt_le_dec 0 x) as [H|H].
  - rewrite Qabs_pos; lra.
  - rewrite Qabs_neg by exact H.
    apply Qle_lteq in H. destruct H as [H|H]; [lra | contradiction].
Qed.

Lemma cexp_opp x : ~ x == 0 -> cexp (- x) = cexp x.
Proof.
  intros Hx. unfold cexp. f_equal. f_equal. f_equal.
  apply ilog2_proper; [|apply Qabs_opp].
  apply Qabs_nz. intros H. apply Hx. lra.
Qed.

Lemma round_nz x : ~ x == 0 ->
  round x == inject_Z (rne (x / pow2 (cexp x))) * pow2 (cexp x).
Proof.
  intros Hx. unfold round.
  destruct (Qeq_bool x 0) eqn:E.
  - apply Qeq_bool_iff in E. contradiction.
  - apply Qred_correct.
Qed.

Lemma round_0 x : x == 0 -> round x == 0.
Proof.
  intros Hx. unfold round. apply Qeq_bool_iff in Hx. rewrite Hx. reflexivity.
Qed.

Lemma Qdiv_pow2_le x y e : x <= y -> x / pow2 e <= y / pow2 e.
Proof.
  intros H. unfold Qdiv. apply Qmult_le_compat_r; [exact H|].
  apply Qlt_le_weak, Qinv_lt_0_compat, pow2_pos.
Qed.

Lemma pow2_div a b : pow2 a / pow2 b == pow2 (a - b).
Proof. unfold pow2. rewrite Qpower_minus by discriminate. reflexivity. Qed.

Lemma round_pos_upper x k :
  0 < x -> (cexp x <= k)%Z -> x <= pow2 k -> round x <= pow2 k.
Proof.
  intros Hx Hk Hxk. rewrite round_nz by lra.
  set (c := cexp x) in *.
  assert (Hr : (rne (x / pow2 c) <= 2 ^ (k - c))%Z).
  { rewrite <- (rne_Z (2 ^ (k - c))). apply rne_le.
    rewrite <- pow2_Z by lia. rewrite <- pow2_div. now apply Qdiv_pow2_le. }
  rewrite Zle_Qle in Hr. rewrite <- pow2_Z in Hr by lia.
  assert (Hk2 : pow2 k == pow2 (k - c) * pow2 c).
  { rewrite <- pow2_add. replace (k - c + c)%Z with k by lia. reflexivity. }
  rewrite Hk2.
  apply Qmult_le_compat_r; [exact Hr|]. apply Qlt_le_weak, pow2_pos.
Qed.

Lemma round_pos_lower y k :
  0 < y -> (cexp y <= k)%Z -> pow2 k <= y -> pow2 k <= round y.
Proof.
  intros Hy Hk Hky. rewrite round_nz by lra.
  set (c := cexp y) in *.
  assert (Hr : (2 ^ (k - c) <= rne (y / pow2 c))%Z).
  { rewrite <- (rne_Z (2 ^ (k - c))). apply rne_le.
    rewrite <- pow2_Z by lia. rewrite <- pow2_div. now apply Qdiv_pow2_le. }
  rewrite Zle_Qle in Hr. rewrite <- pow2_Z in Hr by lia.
  assert (Hk2 : pow2 k == pow2 (k - c) * pow2 c).
  { rewrite <- pow2_add. replace (k - c + c)%Z with k by lia. reflexivity. }
  rewrite Hk2.
  apply Qmult_le_compat_r; [exact Hr|]. apply Qlt_le_weak, pow2_pos.
Qed.

Lemma round_pos_le x y : 0 < x -> x <= y -> round x <= round y.
Proof.
  intros Hx Hxy.
  assert (Hax : Qabs x == x) by (apply Qabs_pos; lra).
  assert (Hay : Qabs y == y) by (apply Qabs_pos; lra).
  assert (Hlx : ilog2 (Qabs x) = ilog2 x) by (apply ilog2_proper; lra).
  assert (Hly : ilog2 (Qabs y) = ilog2 y) by (apply ilog2_proper; lra).
  pose proof (ilog2_le x y Hx Hxy) as Hl.
  destruct (ilog2_spec x Hx) as [Hx1 Hx2].
  destruct (ilog2_spec y ltac:(lra)) as [Hy1 Hy2].
  destruct (Z.eq_dec (cexp x) (cexp y)) as [Heq|Hne].
  - rewrite !round_nz by lra. rewrite Heq.
    apply Qmult_le_compat_r; [|apply Qlt_le_weak, pow2_pos].
    rewrite <- Zle_Qle. apply rne_le. now apply Qdiv_pow2_le.
  - assert (Hc : (cexp x < cexp y)%Z) by (unfold cexp in *; lia).
    apply Qle_trans with (pow2 (ilog2 y)).
    + apply round_pos_upper; [exact Hx | unfold cexp, prec in *; lia |].
      apply Qle_trans with (pow2 (ilog2 x + 1)); [lra|].
      apply pow2_le. unfold cexp, prec in *. lia.
    + apply round_pos_lower; [lra | unfold cexp, prec in *; lia | exact Hy1].
Qed.

Lemma round_opp x : round (- x) == - round x.
Proof.
  destruct (Qeq_dec x 0) as [Hx|Hx].
  - rewrite !round_0; lra.
  - rewrite !round_nz by lra. rewrite cexp_opp by exact Hx.
    rewrite (rne_proper (- x / pow2 (cexp x)) (- (x / pow2 (cexp x)))).
    + rewrite rne_opp, inject_Z_opp. ring.
    + unfold Qdiv. ring.
Qed.

Lemma round_pos_nonneg x : 0 < x -> 0 <= round x.
Proof.
  intros Hx. rewrite round_nz by lra.
  apply Qmult_le_0_compat; [|apply Qlt_le_weak, pow2_pos].
  change 0 with (inject_Z 0). rewrite <- Zle_Qle.
  rewrite <- (rne_Z 0). apply rne_le.
  apply Qle_shift_div_l; [apply pow2_pos|]. change (inject_Z 0) with 0. lra.
Qed.

Lemma round_nonneg x : 0 <= x -> 0 <= round x.
Proof.
  intros Hx. apply Qle_lteq in Hx. destruct Hx as [Hx|Hx].
  - now apply round_pos_nonneg.
  - rewrite round_0; [lra | lra].
Qed.

Lemma round_nonpos x : x <= 0 -> round x <= 0.
Proof.
  intros Hx. assert (H : 0 <= round (- x)) by (apply round_nonneg; lra).
  rewrite round_opp in H. lra.
Qed.

(** Rounding to nearest is monotone. *)
Lemma round_le x y : x <= y -> round x <= round y.
Proof.
  intros Hxy.
  destruct (Qlt_le_dec 0 x) as [Hx|Hx].
  - now apply round_pos_le.
  - destruct (Qlt_le_dec y 0) as [Hy|Hy].
    + assert (H : round (- y) <= round (- x)) by (apply round_pos_le; lra).
      rewrite !round_opp in H. lra.
    + pose proof (round_nonpos x Hx). pose proof (round_nonneg y Hy). lra.
Qed.

Lemma round_proper x y : x == y -> round x == round y.
Proof. intros H. apply Qle_antisym; apply round_le; lra. Qed.

Lemma to_int_le x y : x <= y -> (to_int x <= to_int y)%Z.
Proof.
  intros Hxy. unfold to_int.
  destruct (Qle_bool 0 x) eqn:Ex; destruct (Qle_bool 0 y) eqn:Ey.
  - now apply Qfloor_resp_le.
  - apply Qle_bool_iff in Ex. exfalso.
    assert (~ 0 <= y) by (intros H; apply Qle_bool_iff in H; congruence). lra.
  - apply Qle_bool_iff in Ey.
    assert (Hx : ~ 0 <= x) by (intros H; apply Qle_bool_iff in H; congruence).
    apply Z.le_trans with 0%Z.
    + change 0%Z with (Qceiling 0). apply Qceiling_resp_le. lra.
    + change 0%Z with (Qfloor 0). now apply Qfloor_resp_le.
  - now apply Qceiling_resp_le.
Qed.

Lemma of_int_le a b : (a <= b)%Z -> of_int a <= of_int b.
Proof. intros H. apply round_le. now rewrite <- Zle_Qle. Qed.

Lemma div_le x y c : 0 < c -> x <= y -> div x c <= div y c.
Proof.
  intros Hc H. apply round_le. unfold Qdiv.
  apply Qmult_le_compat_r; [exact H|]. apply Qlt_le_weak, Qinv_lt_0_compat, Hc.
Qed.

Lemma add_le x x' y y' : x <= x' -> y <= y' -> add x y <= add x' y'.
Proof. intros. apply round_le. lra. Qed.


Lemma round_Z_pos z : (0 < z < 2 ^ 53)%Z -> round (inject_Z z) == inject_Z z.
Proof.
  intros Hz.
  assert (Hq : 0 < inject_Z z) by (change 0 with (inject_Z 0); rewrite <- Zlt_Qlt; lia).
  rewrite round_nz by lra.
  set (c := cexp (inject_Z z)).
  assert (Hc : (c <= 0)%Z).
  { unfold c, cexp, prec, emin.
    assert (Ha : Qabs (inject_Z z) == inject_Z z) by (apply Qabs_pos; lra).
    destruct (ilog2_spec (Qabs (inject_Z z)) ltac:(lra)) as [H1 _].
    assert (Hlt : inject_Z z < pow2 53).
    { rewrite pow2_Z by lia. rewrite <- Zlt_Qlt. lia. }
    assert (ilog2 (Qabs (inject_Z z)) < 53)%Z by (apply pow2_lt_inv; lra).
    lia. }
  assert (Hp : pow2 (- c) * pow2 c == 1).
  { rewrite <- pow2_add. replace (- c + c)%Z with 0%Z by lia. reflexivity. }
  pose proof (pow2_pos c) as Hpc.
  rewrite (rne_proper _ (inject_Z (z * 2 ^ (- c)))).
  - rewrite rne_Z, inject_Z_mult, <- pow2_Z by lia.
    rewrite <- Qmult_assoc, Hp. ring.
  - rewrite inject_Z_mult, <- pow2_Z by lia.
    apply Qmult_inj_r with (pow2 c); [lra|].
    rewrite <- Qmult_assoc, Hp. field. lra.
Qed.

Lemma round_Z z : (Z.abs z < 2 ^ 53)%Z -> round (inject_Z z) == inject_Z z.
Proof.
  intros Hz. destruct (Z.lt_trichotomy z 0) as [H|[->|H]].
  - replace z with (- - z)%Z by lia. rewrite inject_Z_opp, round_opp.
    rewrite round_Z_pos by lia. reflexivity.
  - reflexivity.
  - apply round_Z_pos. lia.
Qed.

Section Hours_monotone.
Let H := time.Hour.
Let frac (d : Z) : Q := div (of_int (Z.rem d H)) 3600000000000.

Lemma frac_le d1 d2 : (Z.rem d1 H <= Z.rem d2 H)%Z -> frac d1 <= frac d2.
Proof. intros. apply div_le; [reflexivity|]. now apply of_int_le. Qed.

Lemma frac_0 : frac 0 == 0.
Proof. reflexivity. Qed.

Lemma frac_nonneg d : (0 <= d)%Z -> 0 <= frac d /\ frac d <= 1.
Proof.
  intros Hd. pose proof (Z.rem_bound_pos d H Hd eq_refl) as Hr.
  split.
  - rewrite <- frac_0. apply frac_le. rewrite Z.rem_0_l by discriminate. lia.
  - assert (E : 1 == div (of_int H) 3600000000000) by (vm_compute; reflexivity).
    rewrite E. apply div_le; [reflexivity|]. apply of_int_le. lia.
Qed.

Lemma frac_nonpos d : (d <= 0)%Z -> -1 <= frac d /\ frac d <= 0.
Proof.
  intros Hd. pose proof (Z.rem_bound_pos_neg d H eq_refl Hd) as Hr.
  split.
  - assert (E : -1 == div (of_int (- H)) 3600000000000) by (vm_compute; reflexivity).
    rewrite E. apply div_le; [reflexivity|]. apply of_int_le. unfold H in *. lia.
  - rewrite <- frac_0. apply frac_le. rewrite Z.rem_0_l by discriminate.
    unfold H in *. lia.
Qed.

Lemma Hours_le d1 d2 :
  (time.minDuration <= d1)%Z -> (d1 <= d2)%Z -> (d2 <= time.maxDuration)%Z ->
  time.Hours d1 <= time.Hours d2.
Proof.
  intros Hlo Hd Hhi. unfold time.Hours. fold H. fold (frac d1). fold (frac d2).
  pose proof (Z.quot_rem' d1 H) as E1. pose proof (Z.quot_rem' d2 H) as E2.
  assert (Hq : (Z.quot d1 H <= Z.quot d2 H)%Z) by (apply Z.quot_le_mono; [reflexivity | lia]).
  assert (Hb1 : (Z.abs (Z.quot d1 H) < 2 ^ 53)%Z).
  { assert (- 2 ^ 53 < Z.quot d1 H)%Z.
    { apply Z.lt_le_trans with (Z.quot time.minDuration H); [reflexivity|].
      apply Z.quot_le_mono; [reflexivity | lia]. }
    assert (Z.quot d1 H < 2 ^ 53)%Z.
    { apply Z.le_lt_trans with (Z.quot time.maxDuration H); [|reflexivity].
      apply Z.quot_le_mono; [reflexivity | lia]. }
    lia. }
  assert (Hb2 : (Z.abs (Z.quot d2 H) < 2 ^ 53)%Z).
  { assert (- 2 ^ 53 < Z.quot d2 H)%Z.
    { apply Z.lt_le_trans with (Z.quot time.minDuration H); [reflexivity|].
      apply Z.quot_le_mono; [reflexivity | lia]. }
    assert (Z.quot d2 H < 2 ^ 53)%Z.
    { apply Z.le_lt_trans with (Z.quot time.maxDuration H); [|reflexivity].
      apply Z.quot_le_mono; [reflexivity | lia]. }
    lia. }
  apply round_le. unfold of_int. rewrite !round_Z by assumption.
  destruct (Z.eq_dec (Z.quot d1 H) (Z.quot d2 H)) as [Heq|Hne].
  - rewrite Heq. pose proof (frac_le d1 d2 ltac:(lia)). lra.
  - assert (Hlt : (Z.quot d1 H + 1 <= Z.quot d2 H)%Z) by lia.
    rewrite Zle_Qle, inject_Z_plus in Hlt. change (inject_Z 1) with 1 in Hlt.
    destruct (Z_le_gt_dec 0 d1) as [P1|N1].
    + pose proof (frac_nonneg d1 P1). pose proof (frac_nonneg d2 ltac:(lia)). lra.
    + pose proof (frac_nonpos d1 ltac:(lia)).
      destruct (Z_le_gt_dec 0 d2) as [P2|N2].
      * pose proof (frac_nonneg d2 P2). lra.
      * pose proof (frac_nonpos d2 ltac:(lia)). lra.
Qed.
End Hours_monotone.

(** The hours of an int64 duration stay far below the largest float: no
    operation of the program overflows. *)
Lemma Hours_bounded d :
  (time.minDuration <= d <= time.maxDuration)%Z ->
  -2562048 <= time.Hours d /\ time.Hours d <= 2562048.
Proof.
  intros [Hlo Hhi]. split.
  - apply Qle_trans with (time.Hours time.minDuration).
    + vm_compute. discriminate.
    + apply Hours_le; [reflexivity | exact Hlo | exact Hhi].
  - apply Qle_trans with (time.Hours time.maxDuration).
    + apply Hours_le; [exact Hlo | exact Hhi | reflexivity].
    + vm_compute. discriminate.
Qed.

Lemma Sub_bounds t u :
  (time.minDuration <= time.Sub t u <= time.maxDuration)%Z.
Proof.
  unfold time.Sub.
  destruct (Z.gtb_spec (t - u) time.maxDuration);
    destruct (Z.ltb_spec (t - u) time.minDuration);
    unfold time.minDuration, time.maxDuration in *; lia.
Qed.

Lemma Sub_le t t' u : (t <= t')%Z -> (time.Sub t u <= time.Sub t' u)%Z.
Proof.
  intros Ht. unfold time.Sub.
  destruct (Z.gtb_spec (t - u) time.maxDuration);
    destruct (Z.ltb_spec (t - u) time.minDuration);
    destruct (Z.gtb_spec (t' - u) time.maxDuration);
    destruct (Z.ltb_spec (t' - u) time.minDuration);
    unfold time.minDuration, time.maxDuration in *; lia.
Qed.

(** The age in days that [ListPurgeSpaces] computes does not decrease when
    [now] advances. *)
Lemma delta_le now now' anchor :
  (now <= now')%Z ->
  (to_int (div (time.Hours (time.Sub now anchor)) 24)
   <= to_int (div (time.Hours (time.Sub now' anchor)) 24))%Z.
Proof.
  intros Hn. apply to_int_le, div_le; [reflexivity|].
  apply Hours_le; [apply Sub_bounds | now apply Sub_le | apply Sub_bounds].
Qed.

End float64_lemmas.

(** On the sample durations the age in days computed with [float64.round]
    is the one the Standard Library's binary64 operations give. *)
Example float64_agrees_with_binary64 :
  forallb binary64.agrees binary64.samples = true.
Proof. vm_compute. reflexivity. Qed.

(** The sum in [Hours] is rounded: one nanosecond before 200 days the age is
    200 days already, while one nanosecond before 20 days it is 19. *)
Example delta_near_day_boundary :
  deltaOf (200 * (24 * time.Hour) - 1) 0 = 200
  ∧ deltaOf (20 * (24 * time.Hour) - 1) 0 = 19.
Proof. split; vm_compute; reflexivity. Qed.

(** * Properties of grouping *)

Section grouping.
Context {A : Type} (key : A → string).

Lemma groupStep_lookup (m : gmap string (list A)) (x : A) (k : string) :
  groupStep key m x !! k =
    if decide (key x = k) then Some (default [] (m !! k) ++ [x]) else m !! k.
Proof.
  unfold groupStep. case_decide as Hk.
  - subst k. rewrite lookup_insert_eq. f_equal. f_equal.
    rewrite lookup_total_alt.
    destruct (m !! key x) eqn:E; simpl.
    + by rewrite E.
    + by rewrite lookup_insert_eq.
  - rewrite lookup_insert_ne by done.
    destruct (m !! key x); [done|]. by rewrite lookup_insert_ne.
Qed.

(** Buckets are never empty, and a bucket holds what was there before
    followed by the matching resources of the list, in order. *)
Lemma fold_groupStep_lookup (l : list A) (m : gmap string (list A)) (k : string) :
  fold_left (groupStep key) l m !! k =
    match inSpace key k l with
    | [] => m !! k
    | r => Some (default [] (m !! k) ++ r)
    end.
Proof.
  revert m. induction l as [|x l IH]; intros m; [done|].
  simpl. rewrite IH, groupStep_lookup. unfold inSpace.
  rewrite filter_cons. case_decide as Hk; simpl.
  - destruct (filter _ l) as [|y r] eqn:E; simpl; [done|].
    by rewrite <- app_assoc.
  - done.
Qed.

Lemma group_lookup (l : list A) (k : string) :
  fold_left (groupStep key) l ∅ !! k =
    match inSpace key k l with [] => None | r => Some r end.
Proof.
  rewrite fold_groupStep_lookup, lookup_empty. by destruct (inSpace key k l).
Qed.

Lemma group_lookup_total (l : list A) (k : string) :
  fold_left (groupStep key) l ∅ !!! k = inSpace key k l.
Proof.
  rewrite lookup_total_alt, group_lookup. by destruct (inSpace key k l).
Qed.

End grouping.

Section grouping_spec.
Context {A : Type} (key : A → string).

Lemma groupStep_insert (m : gmap string (list A)) (x : A) :
  groupStep key m x = <[key x := default [] (m !! key x) ++ [x]]> m.
Proof.
  apply map_eq. intros k. rewrite groupStep_lookup.
  case_decide as Hk.
  - subst k. by rewrite lookup_insert_eq.
  - by rewrite lookup_insert_ne.
Qed.

Lemma groupStep_buckets (m : gmap string (list A)) (x : A) :
  concat (snd <$> map_to_list (groupStep key m x))
    ≡ₚ concat (snd <$> map_to_list m) ++ [x].
Proof.
  rewrite groupStep_insert.
  destruct (m !! key x) as [bucket|] eqn:E; simpl.
  - rewrite <- (insert_delete_eq m (key x) (bucket ++ [x])).
    rewrite map_to_list_insert by apply lookup_delete_eq.
    rewrite <- (map_to_list_delete m (key x) bucket E). simpl.
    rewrite <- !app_assoc. apply Permutation_app_head, Permutation_app_comm.
  - rewrite map_to_list_insert by done. simpl.
    apply Permutation_cons_append.
Qed.

Lemma group_buckets (l : list A) :
  concat (snd <$> map_to_list (fold_left (groupStep key) l ∅)) ≡ₚ l.
Proof.
  induction l as [|x l IH] using rev_ind.
  - simpl. by rewrite map_to_list_empty.
  - rewrite fold_left_app. simpl. rewrite groupStep_buckets.
    by apply Permutation_app_tail.
Qed.

Lemma inSpace_nil (l : list A) (k : string) :
  inSpace key k l = [] ↔ ∀ x, x ∈ l → key x ≠ k.
Proof.
  unfold inSpace. split.
  - intros E x Hx Hk.
    assert (Hin : x ∈ filter (λ x, key x = k) l) by (apply list_elem_of_filter; done).
    rewrite E in Hin. by apply not_elem_of_nil in Hin.
  - intros H. destruct (filter _ l) as [|y r] eqn:E; [done|].
    assert (Hy : y ∈ filter (λ x, key x = k) l) by (rewrite E; left).
    apply list_elem_of_filter in Hy as [Hk Hy]. by destruct (H y Hy).
Qed.

Lemma group_Grouped (l : list A) :
  Grouped key l (fold_left (groupStep key) l ∅).
Proof.
  unfold Grouped. split_and!.
  - apply group_buckets.
  - intros k bucket. rewrite group_lookup.
    destruct (inSpace key k l); naive_solver.
  - intros k bucket x. rewrite group_lookup.
    destruct (inSpace key k l) as [|y r] eqn:E; [done|].
    intros [= <-] Hx. rewrite <- E in Hx.
    by apply list_elem_of_filter in Hx as [? _].
  - intros x Hx. rewrite group_lookup.
    destruct (inSpace key (key x) l) eqn:E; [|done].
    by destruct (proj1 (inSpace_nil l (key x)) E x Hx).
  - intros k. rewrite group_lookup, <- inSpace_nil.
    by destruct (inSpace key k l).
Qed.
End grouping_spec.

(** C9. For every list of apps and every list of service instances, grouping
    by space identifier yields a map whose buckets together hold exactly the
    resources of the input (none lost, none duplicated), in which the bucket
    of a key is the input filtered at that key, in input order, so that each
    resource sits in the bucket of its own space identifier and in no other,
    and in which a key no resource carries has no entry. *)
Theorem grouping_partitions (apps : list App) (instances : list ServiceInstance) :
  Grouped App_SpaceGuid apps (groupAppsBySpace apps)
  ∧ Grouped ServiceInstance_SpaceGuid instances (groupInstancesBySpace instances).
Proof. split; apply group_Grouped. Qed.

(** * Properties of age resolution *)

Section firstCreated_facts.
Context (time_Parse : string → string → time.Time + error).
Context {A : Type} (CreatedAt : A → string).

Lemma firstCreated_error (rs : list A) (f : Z) (r : A) (e : error) :
  r ∈ rs → time_Parse time.RFC3339Nano (CreatedAt r) = inr e →
  ∃ e', (firstCreated time_Parse CreatedAt rs f).2 = Some e'.
Proof.
  revert f. induction rs as [|x rs IH]; intros f Hin He.
  - by apply not_elem_of_nil in Hin.
  - simpl. destruct (time_Parse time.RFC3339Nano (CreatedAt x)) as [c|e0] eqn:Ex.
    + apply elem_of_cons in Hin as [->|Hin]; [congruence|]. by apply IH.
    + by exists e0.
Qed.

Lemma firstCreated_error_inv (rs : list A) (f : Z) (e : error) :
  (firstCreated time_Parse CreatedAt rs f).2 = Some e →
  ∃ r, r ∈ rs ∧ time_Parse time.RFC3339Nano (CreatedAt r) = inr e.
Proof.
  revert f. induction rs as [|x rs IH]; intros f; simpl; [done|].
  destruct (time_Parse time.RFC3339Nano (CreatedAt x)) as [c|e0] eqn:Ex.
  - intros H. destruct (IH _ H) as (r & Hr & He). exists r. split; [by right|done].
  - simpl. intros [= <-]. exists x. split; [by left|done].
Qed.

(** When every timestamp parses, and to an instant other than the zero
    instant, the loop ends without an error on the least of the instants and
    of the instant it started from (a zero start does not count). *)
Lemma firstCreated_min (rs : list A) (f : Z) :
  (∀ r, r ∈ rs → ∃ c, time_Parse time.RFC3339Nano (CreatedAt r) = inl c ∧ c ≠ 0) →
  ∃ t, firstCreated time_Parse CreatedAt rs f = (t, None)
    ∧ (t = f ∨ ∃ r, r ∈ rs ∧ time_Parse time.RFC3339Nano (CreatedAt r) = inl t)
    ∧ (∀ r c, r ∈ rs → time_Parse time.RFC3339Nano (CreatedAt r) = inl c → t ≤ c)
    ∧ (f ≠ 0 → t ≤ f ∧ t ≠ 0)
    ∧ (rs ≠ [] → t ≠ 0)
    ∧ (rs = [] → t = f).
Proof.
  revert f. induction rs as [|x rs IH]; intros f Hok.
  - exists f. simpl. split_and!; try done.
    + by left.
    + intros ?? H. by apply not_elem_of_nil in H.
  - destruct (Hok x ltac:(left)) as (c & Hc & Hc0).
    simpl. rewrite Hc.
    set (f' := if time.IsZero f || time.Before c f then c else f).
    assert (Hf' : f' ≠ 0 ∧ f' ≤ c ∧ (f ≠ 0 → f' ≤ f) ∧ (f' = c ∨ f' = f)).
    { unfold f', time.IsZero, time.Before.
      destruct (Z.eqb_spec f 0); destruct (Z.ltb_spec c f); simpl; lia. }
    destruct (IH f') as (t & Ht & Hmem & Hle & Hf & _ & _).
    { intros r Hr. apply Hok. by right. }
    destruct (Hf ltac:(lia)) as [Htf Ht0].
    exists t. split_and!; try done.
    + destruct Hmem as [->|(r & Hr & Hp)].
      * destruct Hf' as (_ & _ & _ & [->| ->]); [right; exists x; split; [left|done] | by left].
      * right. exists r. split; [by right|done].
    + intros r c' [->|Hr]%elem_of_cons Hp.
      * rewrite Hc in Hp. injection Hp as <-. lia.
      * by apply (Hle r).
    + intros Hf0. split; [lia|done].
Qed.

End firstCreated_facts.

Section GetFirstResource_facts.
Context (time_Parse : string → string → time.Time + error).

Lemma GetFirstResource_inSpace (space : Space) (apps : list App)
    (instances : list ServiceInstance) :
  GetFirstResource time_Parse space apps instances =
    match firstCreated time_Parse App_CreatedAt
            (inSpace App_SpaceGuid (Space_Guid space) apps) time.zero with
    | (firstResource, Some err) => (firstResource, Some err)
    | (firstResource, None) =>
        firstCreated time_Parse ServiceInstance_CreatedAt
          (inSpace ServiceInstance_SpaceGuid (Space_Guid space) instances)
          firstResource
    end.
Proof.
  unfold GetFirstResource, groupAppsBySpace, groupInstancesBySpace.
  by rewrite !group_lookup_total.
Qed.

Lemma GetFirstResource_empty (space : Space) (apps : list App)
    (instances : list ServiceInstance) :
  inSpace App_SpaceGuid (Space_Guid space) apps = [] →
  inSpace ServiceInstance_SpaceGuid (Space_Guid space) instances = [] →
  GetFirstResource time_Parse space apps instances = (time.zero, None).
Proof. intros Ha Hi. by rewrite GetFirstResource_inSpace, Ha, Hi. Qed.

(** A resource of the space whose timestamp does not parse makes
    [GetFirstResource] fail. *)
Lemma GetFirstResource_error_app (space : Space) (apps : list App)
    (instances : list ServiceInstance) (a : App) (e : error) :
  a ∈ apps → App_SpaceGuid a = Space_Guid space →
  time_Parse time.RFC3339Nano (App_CreatedAt a) = inr e →
  ∃ e', (GetFirstResource time_Parse space apps instances).2 = Some e'.
Proof.
  intros Ha Hg He. rewrite GetFirstResource_inSpace.
  destruct (firstCreated_error time_Parse App_CreatedAt
              (inSpace App_SpaceGuid (Space_Guid space) apps) time.zero a e)
    as [e' He']; [by apply list_elem_of_filter | done |].
  destruct (firstCreated _ _ _ _) as [f [e0|]]; simpl in *; [by exists e0 | done].
Qed.

Lemma GetFirstResource_error_instance (space : Space) (apps : list App)
    (instances : list ServiceInstance) (i : ServiceInstance) (e : error) :
  i ∈ instances → ServiceInstance_SpaceGuid i = Space_Guid space →
  time_Parse time.RFC3339Nano (ServiceInstance_CreatedAt i) = inr e →
  ∃ e', (GetFirstResource time_Parse space apps instances).2 = Some e'.
Proof.
  intros Hi Hg He. rewrite GetFirstResource_inSpace.
  destruct (firstCreated _ App_CreatedAt _ _) as [f [e0|]]; simpl; [by exists e0|].
  apply (firstCreated_error time_Parse ServiceInstance_CreatedAt _ f i e);
    [by apply list_elem_of_filter | done].
Qed.

(** An error of [GetFirstResource] is the parse error of a resource of the
    space. *)
Lemma GetFirstResource_error_inv (space : Space) (apps : list App)
    (instances : list ServiceInstance) (e : error) :
  (GetFirstResource time_Parse space apps instances).2 = Some e →
  MalformedWith time_Parse space apps instances e.
Proof.
  rewrite GetFirstResource_inSpace.
  destruct (firstCreated _ App_CreatedAt _ _) as [f [e0|]] eqn:Ea; simpl.
  - intros [= ->]. left.
    destruct (firstCreated_error_inv time_Parse App_CreatedAt
                (inSpace App_SpaceGuid (Space_Guid space) apps) time.zero e)
      as (a & Ha & Hp); [by rewrite Ea|].
    apply list_elem_of_filter in Ha as [? ?]. by exists a.
  - intros He. right.
    destruct (firstCreated_error_inv time_Parse ServiceInstance_CreatedAt _ f e He)
      as (i & Hi & Hp).
    apply list_elem_of_filter in Hi as [? ?]. by exists i.
Qed.

Lemma GetFirstResource_error (space : Space) (apps : list App)
    (instances : list ServiceInstance) :
  Malformed time_Parse space apps instances →
  ∃ e, (GetFirstResource time_Parse space apps instances).2 = Some e.
Proof.
  intros [e [(a & ? & ? & ?)|(i & ? & ? & ?)]].
  - by eapply GetFirstResource_error_app.
  - by eapply GetFirstResource_error_instance.
Qed.

(** The instant returned for a space whose timestamps parse to instants
    other than the zero instant, when it is not the zero instant, is the
    least creation instant of the resources of the space. *)
Lemma GetFirstResource_minimum (space : Space) (apps : list App)
    (instances : list ServiceInstance) (f : Z) :
  ParsesNonZero time_Parse space apps instances →
  GetFirstResource time_Parse space apps instances = (f, None) →
  time.IsZero f = false →
  MinimumCreated time_Parse space apps instances f.
Proof.
  intros [Ha Hi]. rewrite GetFirstResource_inSpace.
  set (as' := inSpace App_SpaceGuid (Space_Guid space) apps).
  set (is' := inSpace ServiceInstance_SpaceGuid (Space_Guid space) instances).
  destruct (firstCreated_min time_Parse App_CreatedAt as' time.zero)
    as (t1 & E1 & M1 & L1 & _ & N1 & Z1).
  { intros a [Hg Hin]%list_elem_of_filter.
    destruct (Ha a Hin Hg) as (c & ? & ?%Z.eqb_neq). by exists c. }
  destruct (firstCreated_min time_Parse ServiceInstance_CreatedAt is' t1)
    as (t2 & E2 & M2 & L2 & F2 & N2 & Z2).
  { intros i [Hg Hin]%list_elem_of_filter.
    destruct (Hi i Hin Hg) as (c & ? & ?%Z.eqb_neq). by exists c. }
  rewrite E1, E2. intros [= <-].
  unfold time.IsZero, time.zero in *.
  intros Hnz%Z.eqb_neq. unfold MinimumCreated, time.Before. split_and!.
  - destruct M2 as [->|(i & [? ?]%list_elem_of_filter & ?)]; [|right; by exists i].
    destruct M1 as [->|(a & [? ?]%list_elem_of_filter & ?)]; [done|left; by exists a].
  - intros a c Hin Hg Hp. apply Z.ltb_ge.
    assert (Hin' : a ∈ as') by by apply list_elem_of_filter.
    pose proof (L1 a c Hin' Hp).
    assert (t1 ≠ 0)
      by (apply N1; intros E; rewrite E in Hin'; by apply not_elem_of_nil in Hin').
    destruct F2; [done|]. lia.
  - intros i c Hin Hg Hp. apply Z.ltb_ge.
    apply (L2 i c); [by apply list_elem_of_filter | done].
Qed.

(** C4, amended. For a space whose apps and service instances all carry
    creation timestamps that parse to instants other than the zero instant,
    [GetFirstResource] returns without error; it returns the zero instant if
    and only if the space has no app and no service instance, and otherwise
    the least creation instant of the apps and service instances of the
    space. *)
Theorem first_resource_is_minimum (space : Space) (apps : list App)
    (instances : list ServiceInstance) :
  ParsesNonZero time_Parse space apps instances →
  ∃ t, GetFirstResource time_Parse space apps instances = (t, None)
    ∧ (time.IsZero t = true ↔ NoResources space apps instances)
    ∧ (time.IsZero t = false → MinimumCreated time_Parse space apps instances t).
Proof.
  intros [Ha Hi]. rewrite GetFirstResource_inSpace.
  set (as' := inSpace App_SpaceGuid (Space_Guid space) apps).
  set (is' := inSpace ServiceInstance_SpaceGuid (Space_Guid space) instances).
  destruct (firstCreated_min time_Parse App_CreatedAt as' time.zero)
    as (t1 & E1 & M1 & L1 & _ & N1 & Z1).
  { intros a [Hg Hin]%list_elem_of_filter.
    destruct (Ha a Hin Hg) as (c & ? & ?%Z.eqb_neq). by exists c. }
  destruct (firstCreated_min time_Parse ServiceInstance_CreatedAt is' t1)
    as (t2 & E2 & M2 & L2 & F2 & N2 & Z2).
  { intros i [Hg Hin]%list_elem_of_filter.
    destruct (Hi i Hin Hg) as (c & ? & ?%Z.eqb_neq). by exists c. }
  rewrite E1, E2. exists t2. split; [done|].
  assert (Hempty : NoResources space apps instances ↔ as' = [] ∧ is' = []).
  { unfold NoResources, as', is'. by rewrite !inSpace_nil. }
  unfold time.IsZero, time.zero in *. split.
  - rewrite Hempty, Z.eqb_eq. split.
    + intros Ht2. split.
      * destruct as' as [|a l]; [done|]. exfalso.
        assert (t1 ≠ 0) by by apply N1.
        destruct F2; [done|]. lia.
      * destruct is' as [|i l]; [done|]. exfalso. by apply N2.
    + intros [Ea Ei]. rewrite (Z2 Ei). by apply Z1.
  - intros Hnz%Z.eqb_neq. unfold MinimumCreated, time.Before. split_and!.
    + destruct M2 as [->|(i & [? ?]%list_elem_of_filter & ?)]; [|right; by exists i].
      destruct M1 as [->|(a & [? ?]%list_elem_of_filter & ?)]; [done|left; by exists a].
    + intros a c Hin Hg Hp. apply Z.ltb_ge.
      assert (Hin' : a ∈ as') by by apply list_elem_of_filter.
      pose proof (L1 a c Hin' Hp).
      assert (t1 ≠ 0)
        by (apply N1; intros E; rewrite E in Hin'; by apply not_elem_of_nil in Hin').
      destruct F2; [done|]. lia.
    + intros i c Hin Hg Hp. apply Z.ltb_ge.
      apply (L2 i c); [by apply list_elem_of_filter | done].
Qed.

End GetFirstResource_facts.

(** * Properties of classification *)

Lemma elem_of_snoc {A} (l : list A) (x d : A) : d ∈ l ++ [x] ↔ d ∈ l ∨ d = x.
Proof. rewrite elem_of_app, list_elem_of_singleton. done. Qed.

Section ListPurgeSpaces_facts.
Context (time_Parse : string → string → time.Time + error).
Context (apps : list App) (instances : list ServiceInstance).
Context (notifyThreshold purgeThreshold : Z) (timeStartsAt : Z).

Local Abbreviation anchored :=
  (Anchored time_Parse apps instances timeStartsAt).

Lemma Anchored_cons (space : Space) (spaces : list Space) (d : SpaceDetails) :
  anchored spaces d → anchored (space :: spaces) d.
Proof. intros (f & ? & ?). exists f. split; [by right|done]. Qed.

(** What holds of the entries for the spaces that follow holds of them with
    one more space in front. *)
Ltac widen H :=
  eapply Forall_impl; [exact H|];
  intros ? [? ?]; split; [by apply Anchored_cons|done].

(** The loop appends to the slices it is given, and what it appends is
    anchored and on the right side of the thresholds. *)
Lemma purgeLoop_entries (now : Z) (spaces : list Space)
    (toNotify toPurge toNotify' toPurge' : list SpaceDetails) (err : option error) :
  purgeLoop time_Parse apps instances now notifyThreshold purgeThreshold
    timeStartsAt spaces toNotify toPurge = (toNotify', toPurge', err) →
  ∃ newNotify newPurge,
    toNotify' = toNotify ++ newNotify ∧ toPurge' = toPurge ++ newPurge
    ∧ Forall (λ d, anchored spaces d
                 ∧ notifyThreshold ≤ deltaOf now (Timestamp d) < purgeThreshold)
        newNotify
    ∧ Forall (λ d, anchored spaces d ∧ purgeThreshold ≤ deltaOf now (Timestamp d))
        newPurge.
Proof.
  revert toNotify toPurge.
  induction spaces as [|space spaces IH]; intros toNotify toPurge; simpl.
  - intros [= <- <- <-]. exists [], []. by rewrite !app_nil_r.
  - destruct (GetFirstResource time_Parse space apps instances) as [f [e|]] eqn:G.
    { intros [= <- <- <-]. exists [], []. by rewrite !app_nil_r. }
    destruct (time.IsZero f) eqn:Z0.
    { intros H. destruct (IH _ _ H) as (nN & nP & -> & -> & HN & HP).
      exists nN, nP. split_and!; try done.
      - widen HN.
      - widen HP. }
    fold (anchorOf timeStartsAt f). fold (deltaOf now (anchorOf timeStartsAt f)).
    assert (Hd : anchored (space :: spaces)
                   (mkSpaceDetails (anchorOf timeStartsAt f) space)).
    { exists f. simpl. split_and!; try done. left. }
    destruct (Z.geb_spec (deltaOf now (anchorOf timeStartsAt f)) purgeThreshold) as [Hp|Hp];
      [|destruct (Z.geb_spec (deltaOf now (anchorOf timeStartsAt f)) notifyThreshold) as [Hn|Hn]].
    + intros H. destruct (IH _ _ H) as (nN & nP & -> & -> & HN & HP).
      exists nN, (mkSpaceDetails (anchorOf timeStartsAt f) space :: nP).
      split_and!; [done | by rewrite <- app_assoc | |].
      * widen HN.
      * constructor; [split; [done | simpl; lia]|].
        widen HP.
    + intros H. destruct (IH _ _ H) as (nN & nP & -> & -> & HN & HP).
      exists (mkSpaceDetails (anchorOf timeStartsAt f) space :: nN), nP.
      split_and!; [by rewrite <- app_assoc | done | |].
      * constructor; [split; [done | simpl; lia]|].
        widen HN.
      * widen HP.
    + intros H. destruct (IH _ _ H) as (nN & nP & -> & -> & HN & HP).
      exists nN, nP. split_and!; try done.
      * widen HN.
      * widen HP.
Qed.

Lemma ListPurgeSpaces_entries (now : Z) (spaces : list Space)
    (toNotify toPurge : list SpaceDetails) (err : option error) :
  ListPurgeSpaces time_Parse spaces apps instances now notifyThreshold
    purgeThreshold timeStartsAt = (toNotify, toPurge, err) →
  Forall (λ d, anchored spaces d
             ∧ notifyThreshold ≤ deltaOf now (Timestamp d) < purgeThreshold) toNotify
  ∧ Forall (λ d, anchored spaces d ∧ purgeThreshold ≤ deltaOf now (Timestamp d))
      toPurge.
Proof.
  intros H. apply purgeLoop_entries in H as (nN & nP & -> & -> & HN & HP). done.
Qed.

(** [GetFirstResource] reads the identifier of the space only. *)
Lemma GetFirstResource_Guid (s1 s2 : Space) :
  Space_Guid s1 = Space_Guid s2 →
  GetFirstResource time_Parse s1 apps instances
  = GetFirstResource time_Parse s2 apps instances.
Proof. intros H. by rewrite !GetFirstResource_inSpace, H. Qed.

(** Without an error, every space of the list that has a first resource is
    placed by its age: in [toPurge] from the purge threshold on, else in
    [toNotify] from the notify threshold on. *)
Lemma purgeLoop_complete (now : Z) (spaces : list Space)
    (toNotify toPurge toNotify' toPurge' : list SpaceDetails) :
  purgeLoop time_Parse apps instances now notifyThreshold purgeThreshold
    timeStartsAt spaces toNotify toPurge = (toNotify', toPurge', None) →
  ∀ space f,
    space ∈ spaces →
    GetFirstResource time_Parse space apps instances = (f, None) →
    time.IsZero f = false →
    let d := mkSpaceDetails (anchorOf timeStartsAt f) space in
    (purgeThreshold ≤ deltaOf now (Timestamp d) → d ∈ toPurge')
    ∧ (notifyThreshold ≤ deltaOf now (Timestamp d) < purgeThreshold → d ∈ toNotify').
Proof.
  revert toNotify toPurge.
  induction spaces as [|sp spaces IH]; intros toNotify toPurge H space f Hin G Z0.
  - by apply not_elem_of_nil in Hin.
  - apply elem_of_cons in Hin as [->|Hin].
    + simpl in H. rewrite G, Z0 in H.
      fold (anchorOf timeStartsAt f) in H.
      fold (deltaOf now (anchorOf timeStartsAt f)) in H. simpl.
      destruct (Z.geb_spec (deltaOf now (anchorOf timeStartsAt f)) purgeThreshold) as [Hp|Hp];
        [|destruct (Z.geb_spec (deltaOf now (anchorOf timeStartsAt f)) notifyThreshold) as [Hn|Hn]];
        apply purgeLoop_entries in H as (nN & nP & EN & EP & _); rewrite EN, EP;
        (split; intros ?; [try (exfalso; lia) ..]);
        apply elem_of_app; left; apply elem_of_snoc; by right.
    + simpl in H.
      destruct (GetFirstResource time_Parse sp apps instances) as [f' [e|]]; [done|].
      destruct (time.IsZero f'); [by eapply IH|].
      repeat case_match; by eapply IH.
Qed.

(** Two runs that differ in [now] only, the second one later: what the
    first has in [toNotify] the second has in [toNotify] or [toPurge], what
    the first has in [toPurge] the second has in [toPurge], and they end on
    the same error. *)
Lemma purgeLoop_advance (now now' : Z) (spaces : list Space)
    (toNotify toPurge toNotify' toPurge' : list SpaceDetails) :
  now ≤ now' →
  (∀ d, d ∈ toNotify → d ∈ toNotify' ∨ d ∈ toPurge') →
  (∀ d, d ∈ toPurge → d ∈ toPurge') →
  let r := purgeLoop time_Parse apps instances now notifyThreshold
             purgeThreshold timeStartsAt spaces toNotify toPurge in
  let r' := purgeLoop time_Parse apps instances now' notifyThreshold
              purgeThreshold timeStartsAt spaces toNotify' toPurge' in
  (∀ d, d ∈ r.1.1 → d ∈ r'.1.1 ∨ d ∈ r'.1.2)
  ∧ (∀ d, d ∈ r.1.2 → d ∈ r'.1.2)
  ∧ r.2 = r'.2.
Proof.
  intros Hnow. revert toNotify toPurge toNotify' toPurge'.
  induction spaces as [|space spaces IH];
    intros toNotify toPurge toNotify' toPurge' HN HP; simpl; [done|].
  destruct (GetFirstResource time_Parse space apps instances) as [f [e|]]; [done|].
  destruct (time.IsZero f); [by apply IH|].
  fold (anchorOf timeStartsAt f).
  fold (deltaOf now (anchorOf timeStartsAt f)).
  fold (deltaOf now' (anchorOf timeStartsAt f)).
  assert (Hd : deltaOf now (anchorOf timeStartsAt f)
               ≤ deltaOf now' (anchorOf timeStartsAt f)) by (by apply delta_le).
  set (entry := mkSpaceDetails (anchorOf timeStartsAt f) space).
  destruct (Z.geb_spec (deltaOf now (anchorOf timeStartsAt f)) purgeThreshold);
    destruct (Z.geb_spec (deltaOf now' (anchorOf timeStartsAt f)) purgeThreshold);
    try (exfalso; lia).
  - apply IH.
    + intros d ?. destruct (HN d) as [?|?]; [done | by left | right; apply elem_of_app; by left].
    + intros d [?| ->]%elem_of_snoc;
        apply elem_of_app; [left; by apply HP | right; left].
  - destruct (Z.geb_spec (deltaOf now (anchorOf timeStartsAt f)) notifyThreshold).
    + apply IH.
      * intros d [?| ->]%elem_of_snoc.
        -- destruct (HN d) as [?|?]; [done | by left | right; apply elem_of_app; by left].
        -- right. apply elem_of_app. right. left.
      * intros d ?. apply elem_of_app. left. by apply HP.
    + apply IH.
      * intros d ?. destruct (HN d) as [?|?]; [done | by left | right; apply elem_of_app; by left].
      * intros d ?. apply elem_of_app. left. by apply HP.
  - destruct (Z.geb_spec (deltaOf now (anchorOf timeStartsAt f)) notifyThreshold);
      destruct (Z.geb_spec (deltaOf now' (anchorOf timeStartsAt f)) notifyThreshold);
      try (exfalso; lia).
    + apply IH; [|done].
      intros d [?| ->]%elem_of_snoc.
      * destruct (HN d) as [?|?]; [done | left; apply elem_of_app; by left | by right].
      * left. apply elem_of_app. right. left.
    + apply IH; [|done].
      intros d ?. destruct (HN d) as [?|?]; [done | left; apply elem_of_app; by left | by right].
    + by apply IH.
Qed.

(** A run over spaces that all resolve ends without error. *)
Lemma purgeLoop_ok (now : Z) (spaces : list Space) (toNotify toPurge : list SpaceDetails) :
  (∀ p, p ∈ spaces → (GetFirstResource time_Parse p apps instances).2 = None) →
  (purgeLoop time_Parse apps instances now notifyThreshold purgeThreshold
     timeStartsAt spaces toNotify toPurge).2 = None.
Proof.
  revert toNotify toPurge.
  induction spaces as [|space spaces IH]; intros toNotify toPurge Hok; simpl; [done|].
  pose proof (Hok space ltac:(left)) as G.
  destruct (GetFirstResource time_Parse space apps instances) as [f [e|]]; [done|].
  assert (Hok' : ∀ p, p ∈ spaces →
            (GetFirstResource time_Parse p apps instances).2 = None)
    by (intros p ?; apply Hok; by right).
  repeat case_match; by apply IH.
Qed.

(** A run stops at the first space that does not resolve, with its error
    and with the slices as the spaces before it left them. *)
Lemma purgeLoop_error (now : Z) (pre post : list Space) (space : Space)
    (toNotify toPurge : list SpaceDetails) (e : error) :
  (∀ p, p ∈ pre → (GetFirstResource time_Parse p apps instances).2 = None) →
  (GetFirstResource time_Parse space apps instances).2 = Some e →
  purgeLoop time_Parse apps instances now notifyThreshold purgeThreshold
    timeStartsAt (pre ++ space :: post) toNotify toPurge
  = ((purgeLoop time_Parse apps instances now notifyThreshold purgeThreshold
        timeStartsAt pre toNotify toPurge).1, Some e).
Proof.
  revert toNotify toPurge.
  induction pre as [|p pre IH]; intros toNotify toPurge Hok He; simpl.
  - destruct (GetFirstResource time_Parse space apps instances) as [f [e'|]];
      simpl in He; [by injection He as -> | done].
  - pose proof (Hok p ltac:(left)) as G.
    destruct (GetFirstResource time_Parse p apps instances) as [f [e'|]]; [done|].
    assert (Hok' : ∀ q, q ∈ pre →
              (GetFirstResource time_Parse q apps instances).2 = None)
      by (intros q ?; apply Hok; by right).
    repeat case_match; by apply IH.
Qed.

(** The first space of a list that does not resolve. *)
Lemma first_unresolved (spaces : list Space) (space : Space) (e : error) :
  space ∈ spaces →
  (GetFirstResource time_Parse space apps instances).2 = Some e →
  ∃ pre s post e',
    spaces = pre ++ s :: post
    ∧ (∀ p, p ∈ pre → (GetFirstResource time_Parse p apps instances).2 = None)
    ∧ (GetFirstResource time_Parse s apps instances).2 = Some e'.
Proof.
  induction spaces as [|x spaces IH]; intros Hin He.
  - by apply not_elem_of_nil in Hin.
  - destruct (GetFirstResource time_Parse x apps instances).2 as [e'|] eqn:Gx.
    + exists [], x, spaces, e'. split_and!; [done | | done].
      intros p Hp. by apply not_elem_of_nil in Hp.
    + apply elem_of_cons in Hin as [->|Hin]; [congruence|].
      destruct (IH Hin He) as (pre & s & post & e' & -> & Hpre & Hs).
      exists (x :: pre), s, post, e'. split_and!; [done | | done].
      intros p [->|Hp]%elem_of_cons; [done | by apply Hpre].
Qed.

End ListPurgeSpaces_facts.

Lemma Truncate_idem (t d : Z) :
  time.Truncate (time.Truncate t d) d = time.Truncate t d.
Proof.
  unfold time.Truncate. destruct (Z.leb_spec d 0) as [|Hd]; [done|].
  replace ((t - t mod d) mod d) with 0; [lia|].
  symmetry. apply Z.mod_divide; [lia|].
  exists (t / d). pose proof (Z.div_mod t d). lia.
Qed.

Lemma Truncate_le (t u d : Z) : t ≤ u → time.Truncate t d ≤ time.Truncate u d.
Proof.
  intros H. unfold time.Truncate. destruct (Z.leb_spec d 0) as [|Hd]; [done|].
  pose proof (Z.div_le_mono t u d ltac:(lia) H).
  rewrite !Zmod_eq_full by lia. nia.
Qed.

Lemma anchorOf_truncated (timeStartsAt f : Z) :
  time.Truncate (anchorOf timeStartsAt f) (24 * time.Hour) = anchorOf timeStartsAt f.
Proof. apply Truncate_idem. Qed.

(** A truncated instant is a whole multiple of the duration. *)
Lemma Truncate_multiple (t d : Z) : 0 < d → time.Truncate t d mod d = 0.
Proof.
  intros Hd. unfold time.Truncate. destruct (Z.leb_spec d 0); [lia|].
  apply Z.mod_divide; [lia|].
  exists (t / d). pose proof (Z.div_mod t d). lia.
Qed.

Lemma anchorOf_boundary (timeStartsAt f : Z) :
  anchorOf timeStartsAt f mod (24 * time.Hour) = 0.
Proof. apply Truncate_multiple. reflexivity. Qed.

Lemma anchorOf_floor (timeStartsAt f : Z) :
  time.Truncate timeStartsAt (24 * time.Hour) ≤ anchorOf timeStartsAt f.
Proof.
  unfold anchorOf, time.After. apply Truncate_le.
  destruct (Z.gtb_spec timeStartsAt f); lia.
Qed.

Lemma anchorOf_clamped (timeStartsAt f : Z) :
  time.Before f timeStartsAt = true →
  anchorOf timeStartsAt f = time.Truncate timeStartsAt (24 * time.Hour).
Proof.
  unfold anchorOf, time.Before, time.After. intros H%Z.ltb_lt.
  destruct (Z.gtb_spec timeStartsAt f); [done|lia].
Qed.

(** * The claims about [ListPurgeSpaces] *)

Section ListPurgeSpaces_claims.
Context (time_Parse : string → string → time.Time + error).

(** C10. Every entry of [toNotify] and of [toPurge] carries a [Timestamp] on
    a 24-hour boundary: it is a whole multiple of 24 hours since the zero
    instant, and truncating it again by 24 hours leaves it unchanged. *)
Theorem timestamps_truncated (spaces : list Space) (apps : list App)
    (instances : list ServiceInstance) (now : Z)
    (notifyThreshold purgeThreshold : Z) (timeStartsAt : Z)
    (toNotify toPurge : list SpaceDetails) (err : option error) :
  ListPurgeSpaces time_Parse spaces apps instances now notifyThreshold
    purgeThreshold timeStartsAt = (toNotify, toPurge, err) →
  ∀ d, d ∈ toNotify ++ toPurge →
    Timestamp d mod (24 * time.Hour) = 0
    ∧ time.Truncate (Timestamp d) (24 * time.Hour) = Timestamp d.
Proof.
  intros H d Hd. apply ListPurgeSpaces_entries in H as [HN HP].
  rewrite Forall_forall in HN, HP.
  apply elem_of_app in Hd as [Hd|Hd];
    [destruct (HN d Hd) as [(f & _ & _ & _ & ->) _]
    |destruct (HP d Hd) as [(f & _ & _ & _ & ->) _]];
    (split; [apply anchorOf_boundary | apply anchorOf_truncated]).
Qed.

(** C1, amended. The anchor of every entry of [toNotify] and of [toPurge] is
    never earlier than [timeStartsAt] truncated to its 24-hour boundary. *)
Theorem anchor_not_before_truncated_epoch (spaces : list Space) (apps : list App)
    (instances : list ServiceInstance) (now : Z)
    (notifyThreshold purgeThreshold : Z) (timeStartsAt : Z)
    (toNotify toPurge : list SpaceDetails) (err : option error) :
  ListPurgeSpaces time_Parse spaces apps instances now notifyThreshold
    purgeThreshold timeStartsAt = (toNotify, toPurge, err) →
  ∀ d, d ∈ toNotify ++ toPurge →
    time.Before (Timestamp d) (time.Truncate timeStartsAt (24 * time.Hour)) = false.
Proof.
  intros H d Hd. apply ListPurgeSpaces_entries in H as [HN HP].
  rewrite Forall_forall in HN, HP.
  apply Z.ltb_ge.
  apply elem_of_app in Hd as [Hd|Hd];
    [destruct (HN d Hd) as [(f & _ & _ & _ & ->) _]
    |destruct (HP d Hd) as [(f & _ & _ & _ & ->) _]];
    apply anchorOf_floor.
Qed.

(** C6. A space none of whose apps and service instances carries its
    identifier has no entry in [toNotify] and none in [toPurge], whatever the
    thresholds, [now] and [timeStartsAt]. *)
Theorem empty_space_untouched (spaces : list Space) (apps : list App)
    (instances : list ServiceInstance) (now : Z)
    (notifyThreshold purgeThreshold : Z) (timeStartsAt : Z)
    (toNotify toPurge : list SpaceDetails) (err : option error) (space : Space) :
  (∀ a, a ∈ apps → App_SpaceGuid a ≠ Space_Guid space) →
  (∀ i, i ∈ instances → ServiceInstance_SpaceGuid i ≠ Space_Guid space) →
  ListPurgeSpaces time_Parse spaces apps instances now notifyThreshold
    purgeThreshold timeStartsAt = (toNotify, toPurge, err) →
  ∀ d, d ∈ toNotify ++ toPurge →
    SpaceDetails_Space d ≠ space
    ∧ Space_Guid (SpaceDetails_Space d) ≠ Space_Guid space.
Proof.
  intros Ha Hi H d Hd.
  assert (Hg : Space_Guid (SpaceDetails_Space d) ≠ Space_Guid space);
    [|split; [congruence|done]].
  intros Heq.
  assert (G : GetFirstResource time_Parse (SpaceDetails_Space d) apps instances
              = (time.zero, None)).
  { rewrite (GetFirstResource_Guid _ _ _ _ space Heq).
    apply GetFirstResource_empty; by apply inSpace_nil. }
  apply ListPurgeSpaces_entries in H as [HN HP].
  rewrite Forall_forall in HN, HP.
  apply elem_of_app in Hd as [Hd|Hd];
    [destruct (HN d Hd) as [(f & _ & G' & Z0 & _) _]
    |destruct (HP d Hd) as [(f & _ & G' & Z0 & _) _]];
    rewrite G in G'; by injection G' as <-.
Qed.

(** C8, amended. An entry for a space whose apps and service instances all
    parse to instants other than the zero instant carries the least creation
    instant of the resources of the space, clamped to [timeStartsAt] first
    and truncated to the 24-hour boundary after; when that least instant is
    before [timeStartsAt], the anchor is [timeStartsAt] truncated to 24
    hours, which is the least instant itself only when that instant is the
    24-hour boundary of [timeStartsAt]. *)
Theorem anchor_clamped_then_truncated (spaces : list Space) (apps : list App)
    (instances : list ServiceInstance) (now : Z)
    (notifyThreshold purgeThreshold : Z) (timeStartsAt : Z)
    (toNotify toPurge : list SpaceDetails) (err : option error) (d : SpaceDetails) :
  ListPurgeSpaces time_Parse spaces apps instances now notifyThreshold
    purgeThreshold timeStartsAt = (toNotify, toPurge, err) →
  d ∈ toNotify ++ toPurge →
  ParsesNonZero time_Parse (SpaceDetails_Space d) apps instances →
  ∃ t, MinimumCreated time_Parse (SpaceDetails_Space d) apps instances t
    ∧ Timestamp d =
        time.Truncate (if time.After timeStartsAt t then timeStartsAt else t)
          (24 * time.Hour)
    ∧ (time.Before t timeStartsAt = true →
       Timestamp d = time.Truncate timeStartsAt (24 * time.Hour)
       ∧ (Timestamp d = t → t = time.Truncate timeStartsAt (24 * time.Hour))).
Proof.
  intros H Hd Hok. apply ListPurgeSpaces_entries in H as [HN HP].
  rewrite Forall_forall in HN, HP.
  assert (HA : Anchored time_Parse apps instances timeStartsAt spaces d).
  { apply elem_of_app in Hd as [Hd|Hd];
      [by destruct (HN d Hd) | by destruct (HP d Hd)]. }
  destruct HA as (f & _ & G & Hz & Ht).
  exists f. split_and!.
  - by apply GetFirstResource_minimum.
  - done.
  - intros Hb. rewrite Ht, (anchorOf_clamped _ _ Hb). split; [done|].
    by intros <-.
Qed.

(** C5. With [notifyThreshold ≤ purgeThreshold], no space has an entry in
    [toNotify] and one in [toPurge] (not even two spaces of one identifier);
    the age of an entry of [toNotify] is below the purge threshold; and in a
    run without error a space whose age reaches both thresholds has its
    entry in [toPurge]. *)
Theorem notify_purge_exclusive (spaces : list Space) (apps : list App)
    (instances : list ServiceInstance) (now : Z)
    (notifyThreshold purgeThreshold : Z) (timeStartsAt : Z)
    (toNotify toPurge : list SpaceDetails) (err : option error) :
  notifyThreshold ≤ purgeThreshold →
  ListPurgeSpaces time_Parse spaces apps instances now notifyThreshold
    purgeThreshold timeStartsAt = (toNotify, toPurge, err) →
  (∀ dn dp, dn ∈ toNotify → dp ∈ toPurge →
     SpaceDetails_Space dn ≠ SpaceDetails_Space dp
     ∧ Space_Guid (SpaceDetails_Space dn) ≠ Space_Guid (SpaceDetails_Space dp))
  ∧ (∀ dn, dn ∈ toNotify → deltaOf now (Timestamp dn) < purgeThreshold)
  ∧ (err = None →
     ∀ space f, space ∈ spaces →
       GetFirstResource time_Parse space apps instances = (f, None) →
       time.IsZero f = false →
       notifyThreshold ≤ deltaOf now (anchorOf timeStartsAt f) →
       purgeThreshold ≤ deltaOf now (anchorOf timeStartsAt f) →
       mkSpaceDetails (anchorOf timeStartsAt f) space ∈ toPurge
       ∧ ∀ dn, dn ∈ toNotify → SpaceDetails_Space dn ≠ space).
Proof.
  intros Hle H. pose proof (ListPurgeSpaces_entries _ _ _ _ _ _ _ _ _ _ _ H) as [HN HP].
  rewrite Forall_forall in HN, HP.
  assert (Hex : ∀ dn dp, dn ∈ toNotify → dp ∈ toPurge →
            Space_Guid (SpaceDetails_Space dn) ≠ Space_Guid (SpaceDetails_Space dp)).
  { intros dn dp Hn Hp Heq.
    destruct (HN dn Hn) as [(f1 & _ & G1 & _ & T1) D1].
    destruct (HP dp Hp) as [(f2 & _ & G2 & _ & T2) D2].
    rewrite (GetFirstResource_Guid _ _ _ _ _ Heq), G2 in G1.
    injection G1 as <-. rewrite T1 in D1. rewrite T2 in D2. lia. }
  split_and!.
  - intros dn dp Hn Hp. split; [|by apply Hex].
    intros Heq. apply (Hex dn dp Hn Hp). by rewrite Heq.
  - intros dn Hn. destruct (HN dn Hn) as [_ ?]. lia.
  - intros -> space f Hin G Z0 _ Hp.
    destruct (purgeLoop_complete _ _ _ _ _ _ _ _ _ _ _ _ H space f Hin G Z0) as [Hpurge _].
    split; [by apply Hpurge|].
    intros dn Hn Heq. apply (Hex dn _ Hn (Hpurge Hp)). simpl. by rewrite Heq.
Qed.

(** C7. For fixed spaces, resources, thresholds and [timeStartsAt], a run a
    day later keeps every entry of [toPurge] in [toPurge] and has every entry
    of [toNotify] in [toNotify] or in [toPurge]: a space moves forward only. *)
Theorem one_day_later_moves_forward (spaces : list Space) (apps : list App)
    (instances : list ServiceInstance) (now : Z)
    (notifyThreshold purgeThreshold : Z) (timeStartsAt : Z)
    (toNotify toPurge toNotify' toPurge' : list SpaceDetails)
    (err err' : option error) :
  ListPurgeSpaces time_Parse spaces apps instances now notifyThreshold
    purgeThreshold timeStartsAt = (toNotify, toPurge, err) →
  ListPurgeSpaces time_Parse spaces apps instances
    (time.Add now (24 * time.Hour)) notifyThreshold purgeThreshold timeStartsAt
    = (toNotify', toPurge', err') →
  (∀ d, d ∈ toNotify → d ∈ toNotify' ∨ d ∈ toPurge')
  ∧ (∀ d, d ∈ toPurge → d ∈ toPurge')
  ∧ err = err'.
Proof.
  intros H H'.
  pose proof (purgeLoop_advance time_Parse apps instances notifyThreshold
                purgeThreshold timeStartsAt now (time.Add now (24 * time.Hour))
                spaces [] [] [] []) as Hadv.
  unfold ListPurgeSpaces in H, H'. rewrite H, H' in Hadv. simpl in Hadv.
  apply Hadv; [|by intros d ?%not_elem_of_nil..].
  unfold time.Add. change (24 * time.Hour) with 86400000000000. lia.
Qed.

(** C2, amended. When a listed space has a resource whose creation timestamp
    does not parse, [ListPurgeSpaces] fails: it returns the parse error of a
    resource of the first listed space that has such a resource, and
    [toNotify] and [toPurge] as the spaces listed before that space fill
    them. *)
Theorem malformed_timestamp_fails (spaces : list Space) (apps : list App)
    (instances : list ServiceInstance) (now : Z)
    (notifyThreshold purgeThreshold : Z) (timeStartsAt : Z) (space : Space) :
  space ∈ spaces →
  Malformed time_Parse space apps instances →
  ∃ pre s post e toNotify toPurge,
    spaces = pre ++ s :: post
    ∧ (∀ p, p ∈ pre → ¬ Malformed time_Parse p apps instances)
    ∧ MalformedWith time_Parse s apps instances e
    ∧ ListPurgeSpaces time_Parse spaces apps instances now notifyThreshold
        purgeThreshold timeStartsAt = (toNotify, toPurge, Some e)
    ∧ ListPurgeSpaces time_Parse pre apps instances now notifyThreshold
        purgeThreshold timeStartsAt = (toNotify, toPurge, None).
Proof.
  intros Hin Hbad.
  destruct (GetFirstResource_error time_Parse space apps instances Hbad) as [e0 He0].
  destruct (first_unresolved time_Parse apps instances spaces space e0 Hin He0)
    as (pre & s & post & e & -> & Hpre & Hs).
  pose proof (purgeLoop_error time_Parse apps instances notifyThreshold
                purgeThreshold timeStartsAt now pre post s [] [] e Hpre Hs) as Hrun.
  pose proof (purgeLoop_ok time_Parse apps instances notifyThreshold
                purgeThreshold timeStartsAt now pre [] [] Hpre) as Hok.
  unfold ListPurgeSpaces.
  destruct (purgeLoop time_Parse apps instances now notifyThreshold
              purgeThreshold timeStartsAt pre [] []) as [[toNotify toPurge] err] eqn:Epre.
  simpl in Hok. subst err.
  exists pre, s, post, e, toNotify, toPurge. split_and!.
  - done.
  - intros p Hp Hm.
    destruct (GetFirstResource_error time_Parse p apps instances Hm) as [e' He'].
    rewrite (Hpre p Hp) in He'. done.
  - by apply GetFirstResource_error_inv.
  - exact Hrun.
  - exact Epre.
Qed.

End ListPurgeSpaces_claims.

(** * The purge executor *)

Section PurgeSpace_claims.
Context {W : Type} (client : Client W).

Lemma AllDeleted_cons (a : App) (apps : list App) (w : W) :
  AllDeleted client (a :: apps) w ↔
    (DeleteApp client (App_Guid a) w).1 = None
    ∧ AllDeleted client apps (DeleteApp client (App_Guid a) w).2.
Proof.
  unfold AllDeleted. split.
  - intros H. split; [exact (H 0%nat a eq_refl)|].
    intros i b Hb. exact (H (S i) b Hb).
  - intros [H0 H] [|i] b Hb; simpl in *; [by injection Hb as <- | by apply H].
Qed.

Lemma deleteApps_all (apps : list App) (w : W) (log : list Call) :
  AllDeleted client apps w →
  deleteApps client apps (w, log)
  = (None, (afterDeletes client apps w, log ++ deleteCalls apps)).
Proof.
  revert w log. induction apps as [|a apps IH]; intros w log H; simpl.
  - by rewrite app_nil_r.
  - apply AllDeleted_cons in H as [H0 H].
    unfold bind, call. destruct (DeleteApp client (App_Guid a) w) as [err w'].
    simpl in *. subst err. rewrite IH by done. by rewrite <- app_assoc.
Qed.

Lemma deleteApps_first_failure (pre post : list App) (a : App) (err : error)
    (w : W) (log : list Call) :
  AllDeleted client pre w →
  (DeleteApp client (App_Guid a) (afterDeletes client pre w)).1 = Some err →
  deleteApps client (pre ++ a :: post) (w, log)
  = (Some err, (afterDeletes client (pre ++ [a]) w, log ++ deleteCalls (pre ++ [a]))).
Proof.
  revert w log. induction pre as [|p pre IH]; intros w log H He; simpl in *.
  - unfold bind, call. destruct (DeleteApp client (App_Guid a) w) as [e w'].
    simpl in *. by subst e.
  - apply AllDeleted_cons in H as [H0 H].
    unfold bind, call. destruct (DeleteApp client (App_Guid p) w) as [e w'].
    simpl in *. subst e. rewrite (IH w') by done. by rewrite <- app_assoc.
Qed.

(** C3. [PurgeSpace]: when the combined delete of the space succeeds it
    returns no error and calls nothing else; when it fails and listing the
    apps of the space fails, it returns the listing error; when the deletion
    of an app fails it returns that error and deletes no further app; and
    when every app is deleted it returns the error of the space deletion. *)
Theorem PurgeSpace_errors (space : Space) (w : W) (log : list Call) :
  let guid := Space_Guid space in
  let query : gmap string (list string) := {[ "q" := ["space_guid:" +:+ guid] ]} in
  let deleteSpace := CallDeleteSpace guid true false in
  (∀ w1,
     DeleteSpace client guid true false w = (None, w1) →
     PurgeSpace client space (w, log) = (None, (w1, log ++ [deleteSpace])))
  ∧ (∀ spaceErr w1 err w2,
       DeleteSpace client guid true false w = (Some spaceErr, w1) →
       ListAppsByQuery client query w1 = (inr err, w2) →
       PurgeSpace client space (w, log)
       = (Some err, (w2, log ++ [deleteSpace; CallListAppsByQuery query])))
  ∧ (∀ spaceErr w1 w2 pre a post err,
       DeleteSpace client guid true false w = (Some spaceErr, w1) →
       ListAppsByQuery client query w1 = (inl (pre ++ a :: post), w2) →
       AllDeleted client pre w2 →
       (DeleteApp client (App_Guid a) (afterDeletes client pre w2)).1 = Some err →
       PurgeSpace client space (w, log)
       = (Some err,
          (afterDeletes client (pre ++ [a]) w2,
           log ++ [deleteSpace; CallListAppsByQuery query]
               ++ deleteCalls (pre ++ [a]))))
  ∧ (∀ spaceErr w1 w2 apps,
       DeleteSpace client guid true false w = (Some spaceErr, w1) →
       ListAppsByQuery client query w1 = (inl apps, w2) →
       AllDeleted client apps w2 →
       PurgeSpace client space (w, log)
       = (Some spaceErr,
          (afterDeletes client apps w2,
           log ++ [deleteSpace; CallListAppsByQuery query] ++ deleteCalls apps))).
Proof.
  intros guid query deleteSpace. unfold PurgeSpace, bind, call.
  fold guid. fold query. fold deleteSpace.
  split_and!.
  - intros w1 ->. done.
  - intros spaceErr w1 err w2 -> ->. simpl. by rewrite <- app_assoc.
  - intros spaceErr w1 w2 pre a post err -> -> Hpre Ha.
    rewrite (deleteApps_first_failure pre post a err w2 _ Hpre Ha).
    by rewrite <- !app_assoc.
  - intros spaceErr w1 w2 apps -> -> Hall.
    rewrite (deleteApps_all apps w2 _ Hall). by rewrite <- !app_assoc.
Qed.

End PurgeSpace_claims.


(** * Examples at concrete inputs

    The scenario: thresholds 7 and 14, [now] at day 20; space A has an app
    of day 0 and is purged, space B has a service instance of day 10 and is
    notified, space C has no resource and space D has an app of day 18:
    both are left out. *)
Example scenario :
  ListPurgeSpaces rfc3339.Parse example.spaces example.apps example.instances
    (example.day 20) 7 14 example.epoch
  = ([example.entryB], [example.entryA], None).
Proof. vm_compute. reflexivity. Qed.

(** Case analysis on the members of a list given by its elements. *)
Ltac members :=
  repeat match goal with
  | H : _ ∈ [] |- _ => by apply not_elem_of_nil in H
  | H : _ ∈ _ :: _ |- _ => apply elem_of_cons in H as [->|H]
  end.

Ltac member := repeat first [by left | right].

(** [timestamps_truncated] on the entry of space A, whose earliest resource
    was created at ten in the morning. *)
Lemma timestamps_truncated_witness :
  ListPurgeSpaces rfc3339.Parse example.spaces example_times.apps
    example_times.instances example_times.now 7 14 example.epoch
  = ([example_times.entryB], [example_times.entryA], None)
  ∧ example_times.entryA ∈ [example_times.entryB] ++ [example_times.entryA]
  ∧ GetFirstResource rfc3339.Parse example.spaceA example_times.apps
      example_times.instances = (example_times.earliestA, None)
  ∧ example_times.earliestA mod (24 * time.Hour) = 10 * time.Hour
  ∧ Timestamp example_times.entryA mod (24 * time.Hour) = 0
  ∧ time.Truncate (Timestamp example_times.entryA) (24 * time.Hour)
    = Timestamp example_times.entryA.
Proof.
  assert (Hrun : ListPurgeSpaces rfc3339.Parse example.spaces example_times.apps
                   example_times.instances example_times.now 7 14 example.epoch
                 = ([example_times.entryB], [example_times.entryA], None))
    by (vm_compute; reflexivity).
  assert (Hin : example_times.entryA
                ∈ [example_times.entryB] ++ [example_times.entryA]) by member.
  split_and!; [exact Hrun | exact Hin | vm_compute; reflexivity
              | vm_compute; reflexivity |..];
    apply (timestamps_truncated rfc3339.Parse _ _ _ _ _ _ _ _ _ _ Hrun _ Hin).
Defined.

(** C1, as stated, fails: with an epoch floor at noon, the space whose first
    app predates it is placed with the anchor at the midnight before, which
    is earlier than the floor. *)
Lemma anchor_before_epoch :
  ListPurgeSpaces rfc3339.Parse [example.spaceA] [example.appA] []
    (example.day 40) 7 14 example.noon
  = ([], [mkSpaceDetails (example.day 4) example.spaceA], None)
  ∧ time.Before (example.day 4) example.noon = true.
Proof. split; vm_compute; reflexivity. Qed.

(** [anchor_not_before_truncated_epoch] on the same run. *)
Lemma anchor_not_before_truncated_epoch_witness :
  ListPurgeSpaces rfc3339.Parse [example.spaceA] [example.appA] []
    (example.day 40) 7 14 example.noon
  = ([], [mkSpaceDetails (example.day 4) example.spaceA], None)
  ∧ mkSpaceDetails (example.day 4) example.spaceA
    ∈ [] ++ [mkSpaceDetails (example.day 4) example.spaceA]
  ∧ time.Before (Timestamp (mkSpaceDetails (example.day 4) example.spaceA))
      (time.Truncate example.noon (24 * time.Hour)) = false.
Proof.
  assert (Hrun : ListPurgeSpaces rfc3339.Parse [example.spaceA] [example.appA] []
                   (example.day 40) 7 14 example.noon
                 = ([], [mkSpaceDetails (example.day 4) example.spaceA], None))
    by (vm_compute; reflexivity).
  assert (Hin : mkSpaceDetails (example.day 4) example.spaceA
                ∈ [] ++ [mkSpaceDetails (example.day 4) example.spaceA]) by member.
  split_and!; [exact Hrun | exact Hin |].
  exact (anchor_not_before_truncated_epoch rfc3339.Parse _ _ _ _ _ _ _ _ _ _ Hrun _ Hin).
Defined.

(** The app with the timestamp [yesterday] makes space B malformed. *)
Lemma appBad_malformed :
  Malformed rfc3339.Parse example.spaceB [example.appA; example.appBad] [].
Proof.
  eexists. left. exists example.appBad. split_and!; [member | done |].
  vm_compute. reflexivity.
Qed.

(** C2, as stated, fails: the space listed before the one with the malformed
    resource is in [toPurge] when the error is returned. *)
Lemma malformed_timestamp_partial_output :
  example.spaceB ∈ [example.spaceA; example.spaceB]
  ∧ Malformed rfc3339.Parse example.spaceB [example.appA; example.appBad] []
  ∧ ∃ e, ListPurgeSpaces rfc3339.Parse [example.spaceA; example.spaceB]
           [example.appA; example.appBad] [] (example.day 20) 7 14 example.epoch
         = ([], [example.entryA], Some e).
Proof.
  split_and!; [member | apply appBad_malformed |].
  eexists. vm_compute. reflexivity.
Qed.

(** [malformed_timestamp_fails] on the same input. *)
Lemma malformed_timestamp_fails_witness :
  example.spaceB ∈ [example.spaceA; example.spaceB]
  ∧ Malformed rfc3339.Parse example.spaceB [example.appA; example.appBad] []
  ∧ ∃ pre s post e toNotify toPurge,
      [example.spaceA; example.spaceB] = pre ++ s :: post
      ∧ (∀ p, p ∈ pre →
           ¬ Malformed rfc3339.Parse p [example.appA; example.appBad] [])
      ∧ MalformedWith rfc3339.Parse s [example.appA; example.appBad] [] e
      ∧ ListPurgeSpaces rfc3339.Parse [example.spaceA; example.spaceB]
          [example.appA; example.appBad] [] (example.day 20) 7 14 example.epoch
        = (toNotify, toPurge, Some e)
      ∧ ListPurgeSpaces rfc3339.Parse pre [example.appA; example.appBad] []
          (example.day 20) 7 14 example.epoch
        = (toNotify, toPurge, None).
Proof.
  assert (Hin : example.spaceB ∈ [example.spaceA; example.spaceB]) by member.
  split_and!; [exact Hin | exact appBad_malformed |].
  exact (malformed_timestamp_fails rfc3339.Parse _ _ _ (example.day 20) 7 14
           example.epoch _ Hin appBad_malformed).
Defined.

(** C4, as stated, fails on a resource created at the zero instant: the
    space of such an app gets the zero instant though it has a resource, and
    next to a later app the later instant is returned, not the least. *)
Lemma zero_instant_resource :
  Parses rfc3339.Parse example.spaceA [example.appYear1] []
  ∧ GetFirstResource rfc3339.Parse example.spaceA [example.appYear1] []
    = (time.zero, None)
  ∧ ¬ NoResources example.spaceA [example.appYear1] []
  ∧ Parses rfc3339.Parse example.spaceA [example.appYear1; example.appA] []
  ∧ GetFirstResource rfc3339.Parse example.spaceA [example.appYear1; example.appA] []
    = (example.day 0, None)
  ∧ MinimumCreated rfc3339.Parse example.spaceA
      [example.appYear1; example.appA] [] time.zero.
Proof.
  split_and!.
  - split; intros r Hr _; members; eexists; vm_compute; reflexivity.
  - vm_compute. reflexivity.
  - intros [H _]. by apply (H example.appYear1); [member|].
  - split; intros r Hr _; members; eexists; vm_compute; reflexivity.
  - vm_compute. reflexivity.
  - split_and!.
    + left. exists example.appYear1. split_and!; [member | done | vm_compute; reflexivity].
    + intros a c Ha _ Hc. members; vm_compute in Hc; injection Hc as <-; reflexivity.
    + intros i c Hi. members.
Qed.

(** All timestamps of the inputs with several resources parse, none to the
    zero instant. *)
Lemma times_parse (space : Space) :
  ParsesNonZero rfc3339.Parse space example_times.apps example_times.instances.
Proof.
  split; intros r Hr _; unfold example_times.apps, example_times.instances in Hr;
    members; eexists; split; vm_compute; reflexivity.
Qed.

(** [first_resource_is_minimum] on space A with three apps and three
    service instances, the earliest of them a service instance that is
    neither the first nor the last. *)
Lemma first_resource_is_minimum_witness :
  ParsesNonZero rfc3339.Parse example.spaceA example_times.apps
    example_times.instances
  ∧ GetFirstResource rfc3339.Parse example.spaceA example_times.apps
      example_times.instances = (example_times.earliestA, None)
  ∧ ∃ t, GetFirstResource rfc3339.Parse example.spaceA example_times.apps
           example_times.instances = (t, None)
      ∧ (time.IsZero t = true
         ↔ NoResources example.spaceA example_times.apps example_times.instances)
      ∧ (time.IsZero t = false →
         MinimumCreated rfc3339.Parse example.spaceA example_times.apps
           example_times.instances t).
Proof.
  split_and!; [apply times_parse | vm_compute; reflexivity |].
  exact (first_resource_is_minimum rfc3339.Parse example.spaceA example_times.apps
           example_times.instances (times_parse example.spaceA)).
Defined.

(** [notify_purge_exclusive] on the scenario. *)
Lemma notify_purge_exclusive_witness :
  7 ≤ 14
  ∧ ListPurgeSpaces rfc3339.Parse example.spaces example.apps example.instances
      (example.day 20) 7 14 example.epoch
    = ([example.entryB], [example.entryA], None)
  ∧ (∀ dn dp, dn ∈ [example.entryB] → dp ∈ [example.entryA] →
       SpaceDetails_Space dn ≠ SpaceDetails_Space dp
       ∧ Space_Guid (SpaceDetails_Space dn) ≠ Space_Guid (SpaceDetails_Space dp))
  ∧ (∀ dn, dn ∈ [example.entryB] → deltaOf (example.day 20) (Timestamp dn) < 14)
  ∧ ((None : option error) = None →
     ∀ space f, space ∈ example.spaces →
       GetFirstResource rfc3339.Parse space example.apps example.instances
       = (f, None) →
       time.IsZero f = false →
       7 ≤ deltaOf (example.day 20) (anchorOf example.epoch f) →
       14 ≤ deltaOf (example.day 20) (anchorOf example.epoch f) →
       mkSpaceDetails (anchorOf example.epoch f) space ∈ [example.entryA]
       ∧ ∀ dn, dn ∈ [example.entryB] → SpaceDetails_Space dn ≠ space).
Proof.
  assert (Hle : 7 ≤ 14) by lia.
  assert (Hrun : ListPurgeSpaces rfc3339.Parse example.spaces example.apps
                   example.instances (example.day 20) 7 14 example.epoch
                 = ([example.entryB], [example.entryA], None))
    by (vm_compute; reflexivity).
  split_and!; [exact Hle | exact Hrun |..];
    apply (notify_purge_exclusive _ _ _ _ _ _ _ _ _ _ _ Hle Hrun).
Defined.

(** [empty_space_untouched] on space C of the scenario, which has no
    resource. *)
Lemma empty_space_untouched_witness :
  (∀ a, a ∈ example.apps → App_SpaceGuid a ≠ Space_Guid example.spaceC)
  ∧ (∀ i, i ∈ example.instances →
       ServiceInstance_SpaceGuid i ≠ Space_Guid example.spaceC)
  ∧ ListPurgeSpaces rfc3339.Parse example.spaces example.apps example.instances
      (example.day 20) 7 14 example.epoch
    = ([example.entryB], [example.entryA], None)
  ∧ ∀ d, d ∈ [example.entryB] ++ [example.entryA] →
      SpaceDetails_Space d ≠ example.spaceC
      ∧ Space_Guid (SpaceDetails_Space d) ≠ Space_Guid example.spaceC.
Proof.
  assert (Ha : ∀ a, a ∈ example.apps → App_SpaceGuid a ≠ Space_Guid example.spaceC)
    by (intros a Ha; unfold example.apps in Ha; by members).
  assert (Hi : ∀ i, i ∈ example.instances →
                 ServiceInstance_SpaceGuid i ≠ Space_Guid example.spaceC)
    by (intros i Hi; unfold example.instances in Hi; by members).
  assert (Hrun : ListPurgeSpaces rfc3339.Parse example.spaces example.apps
                   example.instances (example.day 20) 7 14 example.epoch
                 = ([example.entryB], [example.entryA], None))
    by (vm_compute; reflexivity).
  split_and!; [exact Ha | exact Hi | exact Hrun |].
  exact (empty_space_untouched rfc3339.Parse _ _ _ _ _ _ _ _ _ _ _ Ha Hi Hrun).
Defined.

(** [one_day_later_moves_forward] from day 13, when space A is notified, to
    day 14, when it is purged. *)
Lemma one_day_later_moves_forward_witness :
  ListPurgeSpaces rfc3339.Parse example.spaces example.apps example.instances
    (example.day 13) 7 14 example.epoch
  = ([example.entryA], [], None)
  ∧ ListPurgeSpaces rfc3339.Parse example.spaces example.apps example.instances
      (time.Add (example.day 13) (24 * time.Hour)) 7 14 example.epoch
    = ([], [example.entryA], None)
  ∧ (∀ d, d ∈ [example.entryA] → d ∈ [] ∨ d ∈ [example.entryA])
  ∧ (∀ d : SpaceDetails, d ∈ [] → d ∈ [example.entryA])
  ∧ None = (None : option error).
Proof.
  assert (Hrun : ListPurgeSpaces rfc3339.Parse example.spaces example.apps
                   example.instances (example.day 13) 7 14 example.epoch
                 = ([example.entryA], [], None))
    by (vm_compute; reflexivity).
  assert (Hrun' : ListPurgeSpaces rfc3339.Parse example.spaces example.apps
                    example.instances (time.Add (example.day 13) (24 * time.Hour))
                    7 14 example.epoch
                  = ([], [example.entryA], None))
    by (vm_compute; reflexivity).
  split_and!; [exact Hrun | exact Hrun' |..];
    apply (one_day_later_moves_forward _ _ _ _ _ _ _ _ _ _ _ _ _ _ Hrun Hrun').
Defined.

(** C8, as stated, fails on a resource created at the zero instant: the
    least creation instant of space A is then the zero instant, which is
    before the epoch floor, yet the entry carries the instant of the other
    app and not the floor truncated. *)
Lemma zero_instant_not_clamped :
  MinimumCreated rfc3339.Parse example.spaceA [example.appYear1; example.appA] []
    time.zero
  ∧ time.Before time.zero example.epoch = true
  ∧ ListPurgeSpaces rfc3339.Parse [example.spaceA]
      [example.appYear1; example.appA] [] (example.day 20) 7 14 example.epoch
    = ([], [example.entryA], None)
  ∧ Timestamp example.entryA ≠ time.Truncate example.epoch (24 * time.Hour).
Proof.
  split_and!.
  - split_and!.
    + left. exists example.appYear1.
      split_and!; [member | done | vm_compute; reflexivity].
    + intros a c Ha _ Hc. members; vm_compute in Hc; injection Hc as <-; reflexivity.
    + intros i c Hi. members.
  - vm_compute. reflexivity.
  - vm_compute. reflexivity.
  - vm_compute. discriminate.
Qed.

(** [anchor_clamped_then_truncated] with the epoch floor at noon of January
    5, on the entry of space A, whose resources were created from December
    30 on. *)
Lemma anchor_clamped_then_truncated_witness :
  ListPurgeSpaces rfc3339.Parse example.spaces example_times.apps
    example_times.instances (example.day 40) 7 14 example.noon
  = ([], [example_times.clampedA; example_times.entryB; example_times.entryD],
     None)
  ∧ example_times.clampedA
    ∈ [] ++ [example_times.clampedA; example_times.entryB; example_times.entryD]
  ∧ ParsesNonZero rfc3339.Parse (SpaceDetails_Space example_times.clampedA)
      example_times.apps example_times.instances
  ∧ time.Before example_times.earliestA example.noon = true
  ∧ ∃ t, MinimumCreated rfc3339.Parse (SpaceDetails_Space example_times.clampedA)
           example_times.apps example_times.instances t
      ∧ Timestamp example_times.clampedA =
          time.Truncate (if time.After example.noon t then example.noon else t)
            (24 * time.Hour)
      ∧ (time.Before t example.noon = true →
         Timestamp example_times.clampedA
         = time.Truncate example.noon (24 * time.Hour)
         ∧ (Timestamp example_times.clampedA = t →
            t = time.Truncate example.noon (24 * time.Hour))).
Proof.
  assert (Hrun : ListPurgeSpaces rfc3339.Parse example.spaces example_times.apps
                   example_times.instances (example.day 40) 7 14 example.noon
                 = ([], [example_times.clampedA; example_times.entryB;
                         example_times.entryD], None))
    by (vm_compute; reflexivity).
  assert (Hin : example_times.clampedA
                ∈ [] ++ [example_times.clampedA; example_times.entryB;
                         example_times.entryD])
    by member.
  split_and!; [exact Hrun | exact Hin | apply times_parse
              | vm_compute; reflexivity |].
  exact (anchor_clamped_then_truncated rfc3339.Parse _ _ _ _ _ _ _ _ _ _ _
           Hrun Hin (times_parse example.spaceA)).
Defined.

(** [PurgeSpace_errors] on four platforms, one for each case. *)
Lemma PurgeSpace_errors_witness :
  PurgeSpace (example.client true true "") example.spaceA ([example.appA], [])
  = (None, ([], [CallDeleteSpace "A" true false]))
  ∧ PurgeSpace (example.client false false "") example.spaceA ([example.appA], [])
    = (Some (errorString "apps not listed"),
       ([example.appA],
        [CallDeleteSpace "A" true false;
         CallListAppsByQuery {[ "q" := ["space_guid:A"] ]}]))
  ∧ PurgeSpace (example.client false true "app-d") example.spaceA
      ([example.appA; example.appD; example.appYear1], [])
    = (Some (errorString "app not deleted"),
       ([example.appD; example.appYear1],
        [CallDeleteSpace "A" true false;
         CallListAppsByQuery {[ "q" := ["space_guid:A"] ]};
         CallDeleteApp "app-a"; CallDeleteApp "app-d"]))
  ∧ PurgeSpace (example.client false true "") example.spaceA
      ([example.appA; example.appD], [])
    = (Some (errorString "space not deleted"),
       ([], [CallDeleteSpace "A" true false;
             CallListAppsByQuery {[ "q" := ["space_guid:A"] ]};
             CallDeleteApp "app-a"; CallDeleteApp "app-d"])).
Proof.
  split_and!.
  - exact (proj1 (PurgeSpace_errors (example.client true true "") example.spaceA
                    [example.appA] []) [] eq_refl).
  - exact (proj1 (proj2 (PurgeSpace_errors (example.client false false "")
                           example.spaceA [example.appA] []))
             (errorString "space not deleted") [example.appA]
             (errorString "apps not listed") [example.appA] eq_refl eq_refl).
  - refine (proj1 (proj2 (proj2 (PurgeSpace_errors (example.client false true "app-d")
                                   example.spaceA
                                   [example.appA; example.appD; example.appYear1] [])))
              (errorString "space not deleted")
              [example.appA; example.appD; example.appYear1]
              [example.appA; example.appD; example.appYear1]
              [example.appA] example.appD [example.appYear1]
              (errorString "app not deleted") eq_refl eq_refl _ eq_refl).
    intros [|i] a Ha; simpl in Ha; [injection Ha as <-; reflexivity | done].
  - refine (proj2 (proj2 (proj2 (PurgeSpace_errors (example.client false true "")
                                   example.spaceA [example.appA; example.appD] [])))
              (errorString "space not deleted")
              [example.appA; example.appD] [example.appA; example.appD]
              [example.appA; example.appD] eq_refl eq_refl _).
    intros [|[|i]] a Ha; simpl in Ha; try done; injection Ha as <-; reflexivity.
Defined.

(** * Further properties of age resolution and classification *)

(** ** The age in days *)

Section delta_facts.
Import float64.
Local Open Scope Q_scope.

Lemma to_int_proper x y : x == y -> to_int x = to_int y.
Proof. intros H. apply Z.le_antisymm; apply to_int_le; lra. Qed.

Lemma to_int_Z z : to_int (inject_Z z) = z.
Proof.
  unfold to_int. destruct (Qle_bool 0 (inject_Z z)).
  - apply Qfloor_Z.
  - apply Qceiling_Z.
Qed.

Lemma Hours_whole h :
  (Z.abs h < 2 ^ 53)%Z -> time.Hours (h * time.Hour) == inject_Z h.
Proof.
  intros Hh. unfold time.Hours.
  rewrite Z.quot_mul by discriminate. rewrite Z.rem_mul by discriminate.
  unfold add, of_int, div.
  assert (E0 : round (round (inject_Z 0) / 3600000000000) == 0) by reflexivity.
  rewrite (round_proper _ (inject_Z h)).
  - now apply round_Z.
  - rewrite round_Z by exact Hh. rewrite E0. ring.
Qed.

Lemma days_whole m :
  (Z.abs m <= 106751)%Z ->
  to_int (div (time.Hours (m * (24 * time.Hour))) 24) = m.
Proof.
  intros Hm.
  replace (m * (24 * time.Hour))%Z with ((24 * m) * time.Hour)%Z by ring.
  rewrite <- (to_int_Z m) at 2. apply to_int_proper.
  unfold div. rewrite <- (round_Z m) by lia.
  apply round_proper. rewrite Hours_whole by lia.
  rewrite inject_Z_mult. field.
Qed.

End delta_facts.

(** Between instants a whole number of days apart the age is that number. *)
Lemma deltaOf_whole (now anchor m : Z) :
  now - anchor = m * (24 * time.Hour) →
  -106751 ≤ m ≤ 106751 →
  deltaOf now anchor = m.
Proof.
  intros Hd Hm. unfold deltaOf.
  assert (Hs : time.Sub now anchor = m * (24 * time.Hour)).
  { unfold time.Sub. rewrite Hd.
    change (24 * time.Hour) with 86400000000000.
    unfold time.maxDuration, time.minDuration.
    destruct (Z.gtb_spec (m * 86400000000000) (2 ^ 63 - 1)); [lia|].
    destruct (Z.ltb_spec (m * 86400000000000) (- 2 ^ 63)); [lia|]. done. }
  rewrite Hs. apply days_whole. lia.
Qed.

Lemma deltaOf_max (now anchor : Z) : deltaOf now anchor ≤ 106751.
Proof.
  unfold deltaOf.
  change 106751 with
    (float64.to_int (float64.div (time.Hours time.maxDuration) 24%Q)).
  apply to_int_le, div_le; [reflexivity|].
  pose proof (Sub_bounds now anchor) as [? ?].
  apply Hours_le; [done | done | reflexivity].
Qed.

(** An age of at least [k] days, [k] positive, is computed only when more
    than [k - 1] whole days lie between the anchor and [now]. *)
Lemma deltaOf_lower (now anchor k : Z) :
  1 ≤ k → k ≤ deltaOf now anchor → (k - 1) * (24 * time.Hour) < now - anchor.
Proof.
  intros Hk Hd. apply Z.nle_gt. intros Hle.
  pose proof (deltaOf_max now anchor) as Hmax.
  destruct (Z_le_gt_dec k 106752) as [Hr|Hr]; [|lia].
  assert (Hle' : now ≤ anchor + (k - 1) * (24 * time.Hour)) by lia.
  pose proof (delta_le now _ anchor Hle') as Hmono. fold (deltaOf now anchor) in Hmono.
  fold (deltaOf (anchor + (k - 1) * (24 * time.Hour)) anchor) in Hmono.
  rewrite (deltaOf_whole (anchor + (k - 1) * (24 * time.Hour)) anchor (k - 1))
    in Hmono; first [ring | lia].
Qed.

(** From [k] whole days between the anchor and [now] on, the age is at least
    [k] days, for [k] within the range of a [Duration]. *)
Lemma deltaOf_upper (now anchor k : Z) :
  0 ≤ k ≤ 106751 → k * (24 * time.Hour) ≤ now - anchor → k ≤ deltaOf now anchor.
Proof.
  intros Hk Hle.
  assert (Hle' : anchor + k * (24 * time.Hour) ≤ now) by lia.
  pose proof (delta_le _ now anchor Hle') as Hmono. fold (deltaOf now anchor) in Hmono.
  fold (deltaOf (anchor + k * (24 * time.Hour)) anchor) in Hmono.
  rewrite (deltaOf_whole (anchor + k * (24 * time.Hour)) anchor k)
    in Hmono; first [ring | lia].
Qed.

(** ** The loop of [ListPurgeSpaces] *)

Section ListPurgeSpaces_more.
Context (time_Parse : string → string → time.Time + error).
Context (apps : list App) (instances : list ServiceInstance).
Context (now : Z) (notifyThreshold purgeThreshold : Z) (timeStartsAt : Z).

Local Abbreviation loop :=
  (purgeLoop time_Parse apps instances now notifyThreshold purgeThreshold
     timeStartsAt).

(** One turn of the loop, with the anchor and the age named. *)
Lemma purgeLoop_cons (space : Space) (spaces : list Space)
    (toNotify toPurge : list SpaceDetails) :
  loop (space :: spaces) toNotify toPurge
  = match GetFirstResource time_Parse space apps instances with
    | (_, Some err) => (toNotify, toPurge, Some err)
    | (f, None) =>
        if time.IsZero f then loop spaces toNotify toPurge
        else
          let entry := mkSpaceDetails (anchorOf timeStartsAt f) space in
          if deltaOf now (anchorOf timeStartsAt f) >=? purgeThreshold then
            loop spaces toNotify (toPurge ++ [entry])
          else if deltaOf now (anchorOf timeStartsAt f) >=? notifyThreshold then
            loop spaces (toNotify ++ [entry]) toPurge
          else loop spaces toNotify toPurge
    end.
Proof. unfold deltaOf, anchorOf. reflexivity. Qed.

#[local] Opaque deltaOf anchorOf.

(** The loop appends to the slices it is given what it yields from empty
    ones. *)
Lemma purgeLoop_acc (spaces : list Space) (toNotify toPurge : list SpaceDetails) :
  loop spaces toNotify toPurge
  = (toNotify ++ (loop spaces [] []).1.1, toPurge ++ (loop spaces [] []).1.2,
     (loop spaces [] []).2).
Proof.
  revert toNotify toPurge.
  induction spaces as [|space spaces IH]; intros toNotify toPurge.
  - simpl. by rewrite !app_nil_r.
  - rewrite !purgeLoop_cons.
    destruct (GetFirstResource time_Parse space apps instances) as [f [e|]];
      [simpl; by rewrite !app_nil_r|].
    destruct (time.IsZero f); [apply IH|]. cbv zeta.
    destruct (_ >=? purgeThreshold); [|destruct (_ >=? notifyThreshold)];
      rewrite IH; symmetry; rewrite IH; cbn [fst snd app];
      by rewrite <- ?app_assoc.
Qed.

Lemma purgeLoop_app (s1 s2 : list Space) (toNotify toPurge : list SpaceDetails) :
  loop (s1 ++ s2) toNotify toPurge
  = match loop s1 toNotify toPurge with
    | (toNotify, toPurge, Some err) => (toNotify, toPurge, Some err)
    | (toNotify, toPurge, None) => loop s2 toNotify toPurge
    end.
Proof.
  revert toNotify toPurge.
  induction s1 as [|space s1 IH]; intros toNotify toPurge; [done|].
  rewrite <- app_comm_cons, !purgeLoop_cons.
  destruct (GetFirstResource time_Parse space apps instances) as [f [e|]]; [done|].
  destruct (time.IsZero f); [apply IH|]. cbv zeta.
  destruct (_ >=? purgeThreshold); [apply IH|].
  destruct (_ >=? notifyThreshold); apply IH.
Qed.

Lemma purgeLoop_sublist (spaces : list Space) :
  sublist (SpaceDetails_Space <$> (loop spaces [] []).1.1) spaces
  ∧ sublist (SpaceDetails_Space <$> (loop spaces [] []).1.2) spaces
  ∧ (length (loop spaces [] []).1.1 + length (loop spaces [] []).1.2
     ≤ length spaces)%nat.
Proof.
  induction spaces as [|space spaces (IHn & IHp & IHl)].
  - simpl. split_and!; [constructor | constructor | done].
  - rewrite purgeLoop_cons.
    destruct (GetFirstResource time_Parse space apps instances) as [f [e|]].
    { cbn. split_and!; [apply sublist_nil_l | apply sublist_nil_l | lia]. }
    destruct (time.IsZero f).
    { split_and!; [by apply sublist_cons | by apply sublist_cons | cbn; lia]. }
    cbv zeta.
    destruct (_ >=? purgeThreshold); [|destruct (_ >=? notifyThreshold)];
      rewrite purgeLoop_acc; cbn [fst snd app fmap list_fmap length];
      (split_and!; [first [by apply sublist_skip | by apply sublist_cons]
                   | first [by apply sublist_skip | by apply sublist_cons]
                   | lia]).
Qed.

End ListPurgeSpaces_more.

(** ** The loops of [GetFirstResource] *)

Section firstCreated_more.
Context (time_Parse : string → string → time.Time + error).
Context {A : Type} (CreatedAt : A → string).

(** The loop fails with the error of the first timestamp that does not
    parse. *)
Lemma firstCreated_first_error (pre post : list A) (r : A) (e : error) (f : Z) :
  (∀ x, x ∈ pre → ∃ c, time_Parse time.RFC3339Nano (CreatedAt x) = inl c) →
  time_Parse time.RFC3339Nano (CreatedAt r) = inr e →
  (firstCreated time_Parse CreatedAt (pre ++ r :: post) f).2 = Some e.
Proof.
  revert f. induction pre as [|x pre IH]; intros f Hpre He; simpl.
  - by rewrite He.
  - destruct (Hpre x ltac:(left)) as [c ->]. apply IH; [|done].
    intros y Hy. apply Hpre. by right.
Qed.

(** Keeping the earlier instant is taking the minimum, from a start other
    than the zero instant. *)
Lemma earlier_min (f c : Z) :
  (if time.IsZero f || time.Before c f then c else f)
  = if f =? 0 then c else Z.min c f.
Proof.
  unfold time.IsZero, time.Before.
  destruct (Z.eqb_spec f 0), (Z.ltb_spec c f); simpl; lia.
Qed.

(** Among timestamps that parse to instants other than the zero instant the
    order does not matter. *)
Lemma firstCreated_Permutation (rs rs' : list A) (f : Z) :
  rs ≡ₚ rs' →
  (∀ x, x ∈ rs → ∃ c, time_Parse time.RFC3339Nano (CreatedAt x) = inl c ∧ c ≠ 0) →
  firstCreated time_Parse CreatedAt rs f = firstCreated time_Parse CreatedAt rs' f.
Proof.
  intros Hp. revert f. induction Hp as [|x l l' Hp IH|x y l|l l' l'' Hp1 IH1 Hp2 IH2];
    intros f Hok; simpl.
  - done.
  - destruct (Hok x ltac:(left)) as (c & -> & _). apply IH.
    intros z Hz. apply Hok. by right.
  - destruct (Hok x ltac:(right; left)) as (cx & -> & Hx).
    destruct (Hok y ltac:(left)) as (cy & -> & Hy).
    f_equal. rewrite !earlier_min by done.
    destruct (Z.eqb_spec f 0).
    + destruct (Z.eqb_spec cx 0), (Z.eqb_spec cy 0); lia.
    + destruct (Z.eqb_spec (Z.min cx f) 0), (Z.eqb_spec (Z.min cy f) 0); lia.
  - rewrite IH1 by done. apply IH2.
    intros z Hz. apply Hok. by rewrite Hp1.
Qed.

End firstCreated_more.

Section GetFirstResource_more.
Context (time_Parse : string → string → time.Time + error).

Lemma firstCreated_app {A} (CreatedAt : A → string) (l1 l2 : list A) (f : Z) :
  firstCreated time_Parse CreatedAt (l1 ++ l2) f
  = match firstCreated time_Parse CreatedAt l1 f with
    | (f, Some err) => (f, Some err)
    | (f, None) => firstCreated time_Parse CreatedAt l2 f
    end.
Proof.
  revert f. induction l1 as [|x l1 IH]; intros f; simpl; [done|].
  destruct (time_Parse time.RFC3339Nano (CreatedAt x)); [apply IH | done].
Qed.

Lemma firstCreated_fmap {A B} (g : A → B) (CreatedAt : B → string)
    (l : list A) (f : Z) :
  firstCreated time_Parse CreatedAt (g <$> l) f
  = firstCreated time_Parse (CreatedAt ∘ g) l f.
Proof.
  revert f. induction l as [|x l IH]; intros f; simpl; [done|].
  destruct (time_Parse time.RFC3339Nano (CreatedAt (g x))); [apply IH | done].
Qed.

(** [GetFirstResource] is one pass over the resources of the space. *)
Lemma GetFirstResource_resourcesOf (space : Space) (apps : list App)
    (instances : list ServiceInstance) :
  GetFirstResource time_Parse space apps instances
  = firstCreated time_Parse createdAt (resourcesOf space apps instances) time.zero.
Proof.
  rewrite GetFirstResource_inSpace. unfold resourcesOf.
  rewrite firstCreated_app, firstCreated_fmap.
  change (createdAt ∘ inl) with App_CreatedAt.
  destruct (firstCreated _ App_CreatedAt _ _) as [f [e|]]; [done|].
  rewrite firstCreated_fmap. reflexivity.
Qed.

Lemma GetFirstResource_Parses (space : Space) (apps : list App)
    (instances : list ServiceInstance) :
  (GetFirstResource time_Parse space apps instances).2 = None
  ↔ Parses time_Parse space apps instances.
Proof.
  split.
  - intros Hok. split.
    + intros a Ha Hg.
      destruct (time_Parse time.RFC3339Nano (App_CreatedAt a)) as [c|e] eqn:E;
        [by exists c|].
      destruct (GetFirstResource_error_app time_Parse space apps instances a e)
        as [e' He']; [done..|]. congruence.
    + intros i Hi Hg.
      destruct (time_Parse time.RFC3339Nano (ServiceInstance_CreatedAt i))
        as [c|e] eqn:E; [by exists c|].
      destruct (GetFirstResource_error_instance time_Parse space apps instances i e)
        as [e' He']; [done..|]. congruence.
  - intros [Ha Hi].
    destruct (GetFirstResource time_Parse space apps instances).2 as [e|] eqn:E;
      [|done].
    apply GetFirstResource_error_inv in E as [(a & ? & ? & Hp)|(i & ? & ? & Hp)].
    + destruct (Ha a) as [c Hc]; [done..|]. congruence.
    + destruct (Hi i) as [c Hc]; [done..|]. congruence.
Qed.

End GetFirstResource_more.

Section GetFirstResource_extra.
Context (time_Parse : string → string → time.Time + error).

(** X1. [GetFirstResource] reads the apps and service instances of the space
    it is asked about and no others: two inputs that agree on them give the
    same result, whatever the resources of other spaces are, malformed
    timestamps included. *)
Theorem first_resource_reads_own_space (space : Space) (apps apps' : list App)
    (instances instances' : list ServiceInstance) :
  inSpace App_SpaceGuid (Space_Guid space) apps
  = inSpace App_SpaceGuid (Space_Guid space) apps' →
  inSpace ServiceInstance_SpaceGuid (Space_Guid space) instances
  = inSpace ServiceInstance_SpaceGuid (Space_Guid space) instances' →
  GetFirstResource time_Parse space apps instances
  = GetFirstResource time_Parse space apps' instances'.
Proof. intros Ha Hi. by rewrite !GetFirstResource_inSpace, Ha, Hi. Qed.

(** X2. The error of [GetFirstResource] is the parse error of the first
    resource of the space whose timestamp does not parse, the apps of the
    space read before its service instances, each in input order. *)
Theorem first_malformed_resource_reported (space : Space) (apps : list App)
    (instances : list ServiceInstance)
    (pre post : list (App + ServiceInstance)) (r : App + ServiceInstance)
    (e : error) :
  resourcesOf space apps instances = pre ++ r :: post →
  (∀ x, x ∈ pre → ∃ c, time_Parse time.RFC3339Nano (createdAt x) = inl c) →
  time_Parse time.RFC3339Nano (createdAt r) = inr e →
  (GetFirstResource time_Parse space apps instances).2 = Some e.
Proof.
  intros Hr Hpre He. rewrite GetFirstResource_resourcesOf, Hr.
  by apply firstCreated_first_error.
Qed.

(** X3. [GetFirstResource] returns without error exactly when the creation
    timestamp of every app and service instance of the space parses. *)
Theorem first_resource_ok_iff_parses (space : Space) (apps : list App)
    (instances : list ServiceInstance) :
  (GetFirstResource time_Parse space apps instances).2 = None
  ↔ Parses time_Parse space apps instances.
Proof. apply GetFirstResource_Parses. Qed.

(** X4. When the timestamps of the space parse to instants other than the
    zero instant, the result of [GetFirstResource] does not depend on the
    order of the apps nor on the order of the service instances. *)
Theorem first_resource_order_irrelevant (space : Space) (apps apps' : list App)
    (instances instances' : list ServiceInstance) :
  apps ≡ₚ apps' → instances ≡ₚ instances' →
  ParsesNonZero time_Parse space apps instances →
  GetFirstResource time_Parse space apps instances
  = GetFirstResource time_Parse space apps' instances'.
Proof.
  intros Pa Pi [Ha Hi]. rewrite !GetFirstResource_inSpace.
  rewrite (firstCreated_Permutation time_Parse App_CreatedAt
             (inSpace App_SpaceGuid (Space_Guid space) apps)
             (inSpace App_SpaceGuid (Space_Guid space) apps')).
  - destruct (firstCreated _ App_CreatedAt _ _) as [f [e|]]; [done|].
    apply firstCreated_Permutation.
    + unfold inSpace. by rewrite Pi.
    + intros i [Hg Hin]%list_elem_of_filter.
      destruct (Hi i Hin Hg) as (c & ? & ?%Z.eqb_neq). by exists c.
  - unfold inSpace. by rewrite Pa.
  - intros a [Hg Hin]%list_elem_of_filter.
    destruct (Ha a Hin Hg) as (c & ? & ?%Z.eqb_neq). by exists c.
Qed.

End GetFirstResource_extra.

(** ** Classification *)

Section ListPurgeSpaces_extra.
Context (time_Parse : string → string → time.Time + error).

(** X5. The age in days that [ListPurgeSpaces] compares with the thresholds
    is exact on whole days: between an anchor and a [now] that lie a whole
    number [m] of days apart it is [m], for up to 106751 days in either
    direction; the floating-point division loses nothing there. *)
Theorem age_of_whole_days (now anchor m : Z) :
  now - anchor = m * (24 * time.Hour) →
  -106751 ≤ m ≤ 106751 →
  deltaOf now anchor = m.
Proof. intros H Hm. by apply deltaOf_whole. Qed.

(** X6. [ListPurgeSpaces] on two lists of spaces one after the other: when
    the run on the first list ends on an error, that run's result; otherwise
    the results of the two runs appended slice by slice, with the error of
    the second. *)
Theorem purge_list_of_concatenation (spaces1 spaces2 : list Space)
    (apps : list App) (instances : list ServiceInstance) (now : Z)
    (notifyThreshold purgeThreshold : Z) (timeStartsAt : Z) :
  let run spaces :=
    ListPurgeSpaces time_Parse spaces apps instances now notifyThreshold
      purgeThreshold timeStartsAt in
  run (spaces1 ++ spaces2)
  = match run spaces1 with
    | (toNotify, toPurge, Some err) => (toNotify, toPurge, Some err)
    | (toNotify, toPurge, None) =>
        (toNotify ++ (run spaces2).1.1, toPurge ++ (run spaces2).1.2,
         (run spaces2).2)
    end.
Proof.
  intros run. unfold run, ListPurgeSpaces. rewrite purgeLoop_app.
  destruct (purgeLoop _ _ _ _ _ _ _ spaces1 [] []) as [[N P] [e|]]; [done|].
  apply purgeLoop_acc.
Qed.

(** X7. [ListPurgeSpaces] reads the resources of the spaces it is given and
    no others: two inputs that agree on the apps and service instances of
    every listed space give the same result. *)
Theorem purge_list_reads_listed_spaces (spaces : list Space)
    (apps apps' : list App) (instances instances' : list ServiceInstance)
    (now : Z) (notifyThreshold purgeThreshold : Z) (timeStartsAt : Z) :
  (∀ space, space ∈ spaces →
     inSpace App_SpaceGuid (Space_Guid space) apps
     = inSpace App_SpaceGuid (Space_Guid space) apps'
     ∧ inSpace ServiceInstance_SpaceGuid (Space_Guid space) instances
       = inSpace ServiceInstance_SpaceGuid (Space_Guid space) instances') →
  ListPurgeSpaces time_Parse spaces apps instances now notifyThreshold
    purgeThreshold timeStartsAt
  = ListPurgeSpaces time_Parse spaces apps' instances' now notifyThreshold
      purgeThreshold timeStartsAt.
Proof.
  unfold ListPurgeSpaces. generalize (@nil SpaceDetails) at 1 3.
  generalize (@nil SpaceDetails).
  induction spaces as [|space spaces IH]; intros toPurge toNotify Hsame; [done|].
  rewrite !purgeLoop_cons.
  destruct (Hsame space ltac:(left)) as [Ha Hi].
  rewrite (GetFirstResource_inSpace _ _ apps), (GetFirstResource_inSpace _ _ apps').
  rewrite Ha, Hi.
  assert (Hrest : ∀ N P,
    purgeLoop time_Parse apps instances now notifyThreshold purgeThreshold
      timeStartsAt spaces N P
    = purgeLoop time_Parse apps' instances' now notifyThreshold purgeThreshold
        timeStartsAt spaces N P).
  { intros N P. apply IH. intros s Hs. apply Hsame. by right. }
  destruct (firstCreated _ App_CreatedAt _ _) as [f0 [e|]]; [done|].
  destruct (firstCreated _ ServiceInstance_CreatedAt _ _) as [f [e|]]; [done|].
  destruct (time.IsZero f); [apply Hrest|]. cbv zeta.
  destruct (_ >=? purgeThreshold); [apply Hrest|].
  destruct (_ >=? notifyThreshold); apply Hrest.
Qed.

(** X8. The entries of each slice stand for spaces of the input, in the
    order of the input and at most one entry for each position of the input:
    the spaces of [toNotify] and those of [toPurge] are subsequences of
    [spaces], and the two slices together are not longer than [spaces]. *)
Theorem entries_follow_space_order (spaces : list Space) (apps : list App)
    (instances : list ServiceInstance) (now : Z)
    (notifyThreshold purgeThreshold : Z) (timeStartsAt : Z)
    (toNotify toPurge : list SpaceDetails) (err : option error) :
  ListPurgeSpaces time_Parse spaces apps instances now notifyThreshold
    purgeThreshold timeStartsAt = (toNotify, toPurge, err) →
  sublist (SpaceDetails_Space <$> toNotify) spaces
  ∧ sublist (SpaceDetails_Space <$> toPurge) spaces
  ∧ (length toNotify + length toPurge ≤ length spaces)%nat.
Proof.
  unfold ListPurgeSpaces. intros H.
  pose proof (purgeLoop_sublist time_Parse apps instances now notifyThreshold
                purgeThreshold timeStartsAt spaces) as Hs.
  by rewrite H in Hs.
Qed.

(** X9. With a purge threshold that is not above the notify threshold no
    space is ever notified. *)
Theorem inverted_thresholds_never_notify (spaces : list Space) (apps : list App)
    (instances : list ServiceInstance) (now : Z)
    (notifyThreshold purgeThreshold : Z) (timeStartsAt : Z) :
  purgeThreshold ≤ notifyThreshold →
  (ListPurgeSpaces time_Parse spaces apps instances now notifyThreshold
     purgeThreshold timeStartsAt).1.1 = [].
Proof.
  intros Hle.
  destruct (ListPurgeSpaces _ _ _ _ _ _ _ _) as [[toNotify toPurge] err] eqn:H.
  apply ListPurgeSpaces_entries in H as [HN _]. simpl.
  destruct toNotify as [|d l]; [done|].
  apply Forall_cons in HN as [[_ ?] _]. lia.
Qed.

(** X10. A threshold above 106751 days is never reached: with such a purge
    threshold nothing is purged, with such a notify threshold nothing is
    notified, however old the spaces are. *)
Theorem thresholds_out_of_reach (spaces : list Space) (apps : list App)
    (instances : list ServiceInstance) (now : Z)
    (notifyThreshold purgeThreshold : Z) (timeStartsAt : Z)
    (toNotify toPurge : list SpaceDetails) (err : option error) :
  ListPurgeSpaces time_Parse spaces apps instances now notifyThreshold
    purgeThreshold timeStartsAt = (toNotify, toPurge, err) →
  (106751 < purgeThreshold → toPurge = [])
  ∧ (106751 < notifyThreshold → toNotify = []).
Proof.
  intros [HN HP]%ListPurgeSpaces_entries. split; intros Hgt.
  - destruct toPurge as [|d l]; [done|].
    apply Forall_cons in HP as [[_ ?] _].
    pose proof (deltaOf_max now (Timestamp d)). lia.
  - destruct toNotify as [|d l]; [done|].
    apply Forall_cons in HN as [[_ ?] _].
    pose proof (deltaOf_max now (Timestamp d)). lia.
Qed.

(** X11. The ages of the entries in whole days, without floating point: more
    than [purgeThreshold - 1] days lie between the anchor of an entry of
    [toPurge] and [now], more than [notifyThreshold - 1] days between the
    anchor of an entry of [toNotify] and [now], and fewer than
    [purgeThreshold] days for the latter when that threshold is within
    reach. *)
Theorem entries_age_in_days (spaces : list Space) (apps : list App)
    (instances : list ServiceInstance) (now : Z)
    (notifyThreshold purgeThreshold : Z) (timeStartsAt : Z)
    (toNotify toPurge : list SpaceDetails) (err : option error) :
  ListPurgeSpaces time_Parse spaces apps instances now notifyThreshold
    purgeThreshold timeStartsAt = (toNotify, toPurge, err) →
  (∀ d, d ∈ toPurge → 1 ≤ purgeThreshold →
     (purgeThreshold - 1) * (24 * time.Hour) < now - Timestamp d)
  ∧ (∀ d, d ∈ toNotify → 1 ≤ notifyThreshold →
       (notifyThreshold - 1) * (24 * time.Hour) < now - Timestamp d)
  ∧ (∀ d, d ∈ toNotify → 0 ≤ purgeThreshold ≤ 106751 →
       now - Timestamp d < purgeThreshold * (24 * time.Hour)).
Proof.
  intros [HN HP]%ListPurgeSpaces_entries.
  rewrite Forall_forall in HN, HP. split_and!.
  - intros d Hd Hp. destruct (HP d Hd) as [_ ?]. by apply deltaOf_lower.
  - intros d Hd Hn. destruct (HN d Hd) as [_ [? _]]. by apply deltaOf_lower.
  - intros d Hd Hp. destruct (HN d Hd) as [_ [_ Hlt]].
    apply Z.nle_gt. intros Hle.
    pose proof (deltaOf_upper now (Timestamp d) purgeThreshold Hp Hle). lia.
Qed.

(** X12. In a run without error, a listed space whose anchor lies at least
    [purgeThreshold] days before [now] is in [toPurge], for a threshold from
    0 to 106751. *)
Theorem old_spaces_are_purged (spaces : list Space) (apps : list App)
    (instances : list ServiceInstance) (now : Z)
    (notifyThreshold purgeThreshold : Z) (timeStartsAt : Z)
    (toNotify toPurge : list SpaceDetails) (space : Space) (f : Z) :
  ListPurgeSpaces time_Parse spaces apps instances now notifyThreshold
    purgeThreshold timeStartsAt = (toNotify, toPurge, None) →
  space ∈ spaces →
  GetFirstResource time_Parse space apps instances = (f, None) →
  time.IsZero f = false →
  0 ≤ purgeThreshold ≤ 106751 →
  purgeThreshold * (24 * time.Hour) ≤ now - anchorOf timeStartsAt f →
  mkSpaceDetails (anchorOf timeStartsAt f) space ∈ toPurge.
Proof.
  intros H Hin G Hz Hp Hold.
  apply (purgeLoop_complete time_Parse apps instances notifyThreshold
           purgeThreshold timeStartsAt now spaces [] [] _ _ H space f Hin G Hz).
  simpl. by apply deltaOf_upper.
Qed.

(** X13. In a run without error, a listed space whose anchor lies at least
    [notifyThreshold] days and at most [purgeThreshold - 1] days before [now]
    is in [toNotify], for a notify threshold from 0 to 106751 and a purge
    threshold of at least 1. *)
Theorem aging_spaces_are_notified (spaces : list Space) (apps : list App)
    (instances : list ServiceInstance) (now : Z)
    (notifyThreshold purgeThreshold : Z) (timeStartsAt : Z)
    (toNotify toPurge : list SpaceDetails) (space : Space) (f : Z) :
  ListPurgeSpaces time_Parse spaces apps instances now notifyThreshold
    purgeThreshold timeStartsAt = (toNotify, toPurge, None) →
  space ∈ spaces →
  GetFirstResource time_Parse space apps instances = (f, None) →
  time.IsZero f = false →
  0 ≤ notifyThreshold ≤ 106751 → 1 ≤ purgeThreshold →
  notifyThreshold * (24 * time.Hour) ≤ now - anchorOf timeStartsAt f →
  now - anchorOf timeStartsAt f ≤ (purgeThreshold - 1) * (24 * time.Hour) →
  mkSpaceDetails (anchorOf timeStartsAt f) space ∈ toNotify.
Proof.
  intros H Hin G Hz Hn Hp Hold Hyoung.
  apply (purgeLoop_complete time_Parse apps instances notifyThreshold
           purgeThreshold timeStartsAt now spaces [] [] _ _ H space f Hin G Hz).
  simpl. split; [by apply deltaOf_upper|].
  apply Z.nle_gt. intros Hle.
  pose proof (deltaOf_lower now (anchorOf timeStartsAt f) purgeThreshold Hp Hle).
  lia.
Qed.

(** X14. A space whose anchor lies at most [notifyThreshold - 1] days before
    [now] gets no entry, with thresholds [1 <= notifyThreshold <=
    purgeThreshold]: no entry stands for a space with its identifier. *)
Theorem young_spaces_are_left (spaces : list Space) (apps : list App)
    (instances : list ServiceInstance) (now : Z)
    (notifyThreshold purgeThreshold : Z) (timeStartsAt : Z)
    (toNotify toPurge : list SpaceDetails) (err : option error)
    (space : Space) (f : Z) :
  ListPurgeSpaces time_Parse spaces apps instances now notifyThreshold
    purgeThreshold timeStartsAt = (toNotify, toPurge, err) →
  GetFirstResource time_Parse space apps instances = (f, None) →
  1 ≤ notifyThreshold ≤ purgeThreshold →
  now - anchorOf timeStartsAt f ≤ (notifyThreshold - 1) * (24 * time.Hour) →
  ∀ d, d ∈ toNotify ++ toPurge →
    Space_Guid (SpaceDetails_Space d) ≠ Space_Guid space.
Proof.
  intros [HN HP]%ListPurgeSpaces_entries G Hth Hyoung d Hd Hg.
  rewrite Forall_forall in HN, HP.
  assert (Hage : notifyThreshold ≤ deltaOf now (Timestamp d)
                 ∧ Anchored time_Parse apps instances timeStartsAt spaces d).
  { apply elem_of_app in Hd as [Hd|Hd].
    - destruct (HN d Hd) as [? [? _]]. done.
    - destruct (HP d Hd) as [? ?]. split; [lia | done]. }
  destruct Hage as [Hage (f' & _ & G' & _ & Ht)].
  rewrite (GetFirstResource_Guid time_Parse apps instances _ space Hg), G in G'.
  injection G' as <-. rewrite Ht in Hage.
  pose proof (deltaOf_lower now (anchorOf timeStartsAt f) notifyThreshold
                ltac:(lia) Hage). lia.
Qed.

(** X15. [ListPurgeSpaces] returns without error exactly when the creation
    timestamps of all apps and service instances of all listed spaces
    parse. *)
Theorem purge_list_ok_iff_parses (spaces : list Space) (apps : list App)
    (instances : list ServiceInstance) (now : Z)
    (notifyThreshold purgeThreshold : Z) (timeStartsAt : Z) :
  (ListPurgeSpaces time_Parse spaces apps instances now notifyThreshold
     purgeThreshold timeStartsAt).2 = None
  ↔ ∀ space, space ∈ spaces → Parses time_Parse space apps instances.
Proof.
  unfold ListPurgeSpaces. split.
  - intros Hok space Hin. apply GetFirstResource_Parses.
    destruct (GetFirstResource time_Parse space apps instances).2 as [e|] eqn:G;
      [|done].
    destruct (first_unresolved time_Parse apps instances spaces space e Hin G)
      as (pre & s & post & e' & -> & Hpre & Hs).
    rewrite (purgeLoop_error time_Parse apps instances notifyThreshold
               purgeThreshold timeStartsAt now pre post s [] [] e' Hpre Hs) in Hok.
    done.
  - intros Hall. apply purgeLoop_ok. intros p Hp.
    apply GetFirstResource_Parses. by apply Hall.
Qed.

End ListPurgeSpaces_extra.

#[local] Transparent deltaOf anchorOf.

(** * Further properties of the purge executor *)

Section PurgeSpace_more.
Context {W : Type} (client : Client W).

(** The loop logs the deletions of a prefix of the apps, in their order. *)
Lemma deleteApps_log (apps : list App) (w : W) (log : list Call) :
  ∃ n, (deleteApps client apps (w, log)).2.2 = log ++ deleteCalls (take n apps).
Proof.
  revert w log. induction apps as [|a apps IH]; intros w log; simpl.
  - exists 0%nat. by rewrite app_nil_r.
  - unfold bind, call. destruct (DeleteApp client (App_Guid a) w) as [[e|] w'].
    + exists 1%nat. done.
    + destruct (IH w' (log ++ [CallDeleteApp (App_Guid a)])) as [n ->].
      exists (S n). by rewrite <- app_assoc.
Qed.

(** X16. [PurgeSpace] returns no error exactly when the deletion of the space
    succeeded: once that deletion has failed an error is returned, also when
    every app of the space was then deleted. *)
Theorem PurgeSpace_nil_iff_space_deleted (space : Space) (w : W) (log : list Call) :
  (PurgeSpace client space (w, log)).1 = None
  ↔ (DeleteSpace client (Space_Guid space) true false w).1 = None.
Proof.
  unfold PurgeSpace, bind, call.
  destruct (DeleteSpace client (Space_Guid space) true false w) as [[spaceErr|] w1];
    simpl; [|done].
  destruct (ListAppsByQuery client _ w1) as [[apps|err] w2]; simpl; [|done].
  destruct (deleteApps client apps _) as [[err|] s]; done.
Qed.

(** X17. [PurgeSpace] adds its calls to the log, the deletion of the space
    first; it deletes an app only after the deletion of the space has
    failed, and only apps that the listing for this space returned. *)
Theorem PurgeSpace_deletes_listed_apps_only (space : Space) (w : W) (log : list Call) :
  let guid := Space_Guid space in
  let query : gmap string (list string) := {[ "q" := ["space_guid:" +:+ guid] ]} in
  let deleted := DeleteSpace client guid true false w in
  ∃ calls,
    (PurgeSpace client space (w, log)).2.2
    = log ++ CallDeleteSpace guid true false :: calls
    ∧ ∀ g, CallDeleteApp g ∈ calls →
        is_Some deleted.1
        ∧ ∃ apps a, (ListAppsByQuery client query deleted.2).1 = inl apps
                    ∧ a ∈ apps ∧ App_Guid a = g.
Proof.
  intros guid query deleted. unfold PurgeSpace, bind, call, deleted.
  fold guid. fold query.
  destruct (DeleteSpace client guid true false w) as [[spaceErr|] w1]; simpl.
  - destruct (ListAppsByQuery client query w1) as [[apps|err] w2] eqn:L; simpl.
    + destruct (deleteApps_log apps w2
                  ((log ++ [CallDeleteSpace guid true false])
                     ++ [CallListAppsByQuery query])) as [n Hn].
      destruct (deleteApps client apps _) as [[err|] [w3 log3]]; simpl in *;
        subst log3;
        (exists (CallListAppsByQuery query :: deleteCalls (take n apps));
         split; [by rewrite <- !app_assoc|];
         intros g [?|Hg]%elem_of_cons; [done|];
         split; [done|];
         apply list_elem_of_fmap in Hg as (a & [= ->] & Ha);
         exists apps, a; split_and!; [done | by eapply subseteq_take | done]).
    + exists [CallListAppsByQuery query]. split; [by rewrite <- app_assoc|].
      intros g [?|?%not_elem_of_nil]%elem_of_cons; done.
  - exists []. split; [done|]. by intros g ?%not_elem_of_nil.
Qed.

End PurgeSpace_more.


(** * Recipients *)

Section recipients_facts.
Context (mail_ParseAddress : string → Address + error).

Lemma roleTypesLoop_spec (role : SpaceRole) (roleTypes developers managers : list string) :
  roleTypesLoop (SpaceRole_Guid role) roleTypes developers managers
  = (developers ++ ((λ _, SpaceRole_Guid role)
                      <$> filter (λ t, t = "space_developer") roleTypes),
     managers ++ ((λ _, SpaceRole_Guid role)
                    <$> filter (λ t, t = "space_manager") roleTypes)).
Proof.
  revert developers managers.
  induction roleTypes as [|t ts IH]; intros developers managers; simpl.
  - by rewrite !app_nil_r.
  - rewrite !filter_cons.
    destruct (String.eqb_spec t "space_developer") as [->|Hd].
    + rewrite IH. rewrite decide_True by done.
      rewrite decide_False by done. simpl. by rewrite <- app_assoc.
    + rewrite (decide_False (P := t = "space_developer")) by done.
      destruct (String.eqb_spec t "space_manager") as [->|Hm].
      * rewrite IH, decide_True by done. simpl. by rewrite <- app_assoc.
      * by rewrite IH, decide_False.
Qed.

Lemma recipientsLoop_spec (userGUIDs : gmap string bool) (roles : list SpaceRole)
    (addresses developers managers : list string) :
  recipientsLoop mail_ParseAddress userGUIDs roles addresses developers managers
  = (addresses ++ (filter (Known userGUIDs) roles ≫= addressOf mail_ParseAddress),
     developers ++ (filter (Known userGUIDs) roles ≫= rolesOf "space_developer"),
     managers ++ (filter (Known userGUIDs) roles ≫= rolesOf "space_manager")).
Proof.
  revert addresses developers managers.
  induction roles as [|role roles IH]; intros addresses developers managers; simpl.
  - by rewrite !app_nil_r.
  - rewrite filter_cons.
    destruct (decide (Known userGUIDs role)) as [[b E]|Hk].
    + rewrite E, roleTypesLoop_spec, IH. simpl.
      unfold addressOf at 2, rolesOf at 2 4.
      destruct (mail_ParseAddress (SpaceRole_Username role));
        by rewrite <- ?app_assoc, ?app_nil_r.
    + destruct (userGUIDs !! SpaceRole_Guid role) as [b|] eqn:E.
      * destruct Hk. by exists b.
      * apply IH.
Qed.

Lemma ListRecipients_spec (userGUIDs : gmap string bool) (roles : list SpaceRole) :
  ListRecipients mail_ParseAddress userGUIDs roles
  = (filter (Known userGUIDs) roles ≫= addressOf mail_ParseAddress,
     filter (Known userGUIDs) roles ≫= rolesOf "space_developer",
     filter (Known userGUIDs) roles ≫= rolesOf "space_manager").
Proof. unfold ListRecipients. by rewrite recipientsLoop_spec. Qed.

Lemma elem_of_rolesOf (kind g : string) (role : SpaceRole) :
  g ∈ rolesOf kind role ↔ kind ∈ SpaceRole_SpaceRoles role ∧ SpaceRole_Guid role = g.
Proof.
  unfold rolesOf. rewrite list_elem_of_fmap. split.
  - intros (t & -> & [-> Ht]%list_elem_of_filter). done.
  - intros [Hk <-]. exists kind. split; [done|]. by apply list_elem_of_filter.
Qed.

Lemma elem_of_addressOf (u : string) (role : SpaceRole) :
  u ∈ addressOf mail_ParseAddress role ↔
    (∃ a, mail_ParseAddress (SpaceRole_Username role) = inl a)
    ∧ SpaceRole_Username role = u.
Proof.
  unfold addressOf. destruct (mail_ParseAddress (SpaceRole_Username role)) as [a|e].
  - rewrite list_elem_of_singleton. split; [intros ->; eauto | by intros [_ <-]].
  - split; [by intros ?%not_elem_of_nil | by intros [[? ?] _]].
Qed.

End recipients_facts.

Section recipients_more.
Context (mail_ParseAddress : string → Address + error).

(** X18. [ListRecipients] reads the roles of the users that are keys of
    [userGUIDs] and no others: the addresses are the user names of those
    roles that parse as a mail address, the developers and the managers are
    the identifiers of those roles that have the role type
    [space_developer], respectively [space_manager]. *)
Theorem recipients_members (userGUIDs : gmap string bool) (roles : list SpaceRole)
    (addresses developers managers : list string) :
  ListRecipients mail_ParseAddress userGUIDs roles
  = (addresses, developers, managers) →
  (∀ u, u ∈ addresses ↔
     ∃ role, role ∈ roles ∧ Known userGUIDs role
       ∧ (∃ a, mail_ParseAddress (SpaceRole_Username role) = inl a)
       ∧ SpaceRole_Username role = u)
  ∧ (∀ g, g ∈ developers ↔
       ∃ role, role ∈ roles ∧ Known userGUIDs role
         ∧ "space_developer" ∈ SpaceRole_SpaceRoles role
         ∧ SpaceRole_Guid role = g)
  ∧ (∀ g, g ∈ managers ↔
       ∃ role, role ∈ roles ∧ Known userGUIDs role
         ∧ "space_manager" ∈ SpaceRole_SpaceRoles role
         ∧ SpaceRole_Guid role = g).
Proof.
  rewrite ListRecipients_spec. intros [= <- <- <-]. split_and!; intros x;
    rewrite list_elem_of_bind;
    (split;
     [ intros (role & Hx & [? ?]%list_elem_of_filter); exists role;
       first [apply elem_of_addressOf in Hx as [? ?]
             |apply elem_of_rolesOf in Hx as [? ?]]; done
     | intros (role & ? & ? & ? & ?); exists role;
       split; [|by apply list_elem_of_filter];
       first [by apply elem_of_addressOf | by apply elem_of_rolesOf] ]).
Qed.

(** X19. [ListRecipients] reads of [userGUIDs] which identifiers are keys, not
    the booleans stored under them: two maps with the same keys give the same
    result (a user mapped to [false] is a recipient like one mapped to
    [true]). *)
Theorem recipients_ignore_map_values (userGUIDs userGUIDs' : gmap string bool)
    (roles : list SpaceRole) :
  dom userGUIDs = dom userGUIDs' →
  ListRecipients mail_ParseAddress userGUIDs roles
  = ListRecipients mail_ParseAddress userGUIDs' roles.
Proof.
  intros Hdom. rewrite !ListRecipients_spec.
  rewrite (list_filter_iff (Known userGUIDs) (Known userGUIDs')); [done|].
  intros role. unfold Known. by rewrite <- !elem_of_dom, Hdom.
Qed.

(** X20. The result for two lists of roles one after the other is the results
    for the two lists, appended slice by slice. *)
Theorem recipients_of_concatenation (userGUIDs : gmap string bool)
    (roles1 roles2 : list SpaceRole) :
  let r1 := ListRecipients mail_ParseAddress userGUIDs roles1 in
  let r2 := ListRecipients mail_ParseAddress userGUIDs roles2 in
  ListRecipients mail_ParseAddress userGUIDs (roles1 ++ roles2)
  = (r1.1.1 ++ r2.1.1, r1.1.2 ++ r2.1.2, r1.2 ++ r2.2).
Proof.
  intros r1 r2. unfold r1, r2. rewrite !ListRecipients_spec. simpl.
  by rewrite filter_app, !bind_app.
Qed.

End recipients_more.


(** * Organizations and their resources *)

(** [strings.HasPrefix]: the name begins with the prefix. *)
Lemma prefix_append (p s : string) :
  String.prefix p s = true ↔ ∃ t, s = p +:+ t.
Proof.
  revert s. induction p as [|c p IH]; intros s.
  - split; [intros _; by exists s | intros _; by destruct s].
  - destruct s as [|d s]; simpl.
    + split; [done | by intros [t ?]].
    + destruct (Ascii.ascii_dec c d) as [->|Hcd].
      * rewrite IH. split; intros [t E]; exists t.
        -- rewrite E. reflexivity.
        -- change (String d s = String d (p +:+ t)) in E. by injection E.
      * split; [done|]. intros [t E].
        change (String d s = String c (p +:+ t)) in E. by injection E as -> ?.
Qed.

Section listing_facts.
Context {W : Type} (client : Platform W).

Lemma sandboxes_filter (prefix : string) (orgs sandboxes : list Org) :
  fold_left
    (λ sandboxes org,
       if String.prefix prefix (Org_Name org) then sandboxes ++ [org]
       else sandboxes)
    orgs sandboxes
  = sandboxes ++ filter (λ org, String.prefix prefix (Org_Name org) = true) orgs.
Proof.
  revert sandboxes. induction orgs as [|org orgs IH]; intros sandboxes; simpl.
  - by rewrite app_nil_r.
  - rewrite IH, filter_cons.
    destruct (String.prefix prefix (Org_Name org)).
    + rewrite decide_True by done. by rewrite <- app_assoc.
    + by rewrite decide_False.
Qed.

Lemma ListSandboxOrgs_ok (prefix : string) (w w' : W) (orgs : list Org) :
  ListOrgs client w = ((orgs, None), w') →
  ListSandboxOrgs client prefix w
  = ((filter (λ org, String.prefix prefix (Org_Name org) = true) orgs, None), w').
Proof. intros H. unfold ListSandboxOrgs. by rewrite H, sandboxes_filter. Qed.

End listing_facts.

Section listing_more.
Context {W : Type} (client : Platform W).

(** X21. [ListSandboxOrgs]: when listing the organizations fails it returns
    that error and no organization, whatever the listing returned beside the
    error; otherwise it returns, without error and in the order of the
    listing, the organizations whose name begins with the prefix, each as
    often as listed. *)
Theorem sandbox_orgs_by_prefix (prefix : string) (w w' : W) (orgs : list Org)
    (err : option error) :
  ListOrgs client w = ((orgs, err), w') →
  match err with
  | Some e => ListSandboxOrgs client prefix w = (([], Some e), w')
  | None =>
      ∃ sandboxes,
        ListSandboxOrgs client prefix w = ((sandboxes, None), w')
        ∧ sublist sandboxes orgs
        ∧ (∀ org, org ∈ sandboxes ↔
             org ∈ orgs ∧ ∃ rest, Org_Name org = prefix +:+ rest)
        ∧ sandboxes = filter (λ org, String.prefix prefix (Org_Name org) = true) orgs
  end.
Proof.
  intros H. destruct err as [e|].
  - unfold ListSandboxOrgs. by rewrite H.
  - eexists. split; [by apply ListSandboxOrgs_ok|]. split_and!.
    + apply sublist_filter.
    + intros org. rewrite list_elem_of_filter, prefix_append. tauto.
    + done.
Qed.

(** X22. A longer prefix selects among the organizations that the shorter one
    selects, and the empty prefix selects every organization listed. *)
Theorem sandbox_orgs_longer_prefix (prefix more : string) (w w' : W) (orgs : list Org) :
  ListOrgs client w = ((orgs, None), w') →
  sublist (ListSandboxOrgs client (prefix +:+ more) w).1.1
          (ListSandboxOrgs client prefix w).1.1
  ∧ ListSandboxOrgs client "" w = ((orgs, None), w').
Proof.
  intros H. rewrite !(ListSandboxOrgs_ok client _ w w' orgs H). simpl. split.
  - clear H. induction orgs as [|org orgs IH]; [done|].
    rewrite !filter_cons.
    destruct (decide (String.prefix (prefix +:+ more) (Org_Name org) = true))
      as [Hp|Hp].
    + rewrite decide_True; [by apply sublist_skip|].
      apply prefix_append in Hp as [t Ht]. apply prefix_append.
      exists (more +:+ t). rewrite Ht. clear.
      induction prefix as [|c p IHp]; [done|].
      change (String c ((p +:+ more) +:+ t) = String c (p +:+ (more +:+ t))).
      by rewrite IHp.
    + destruct (decide _); [by apply sublist_cons | done].
  - f_equal. f_equal. clear. induction orgs as [|org orgs IH]; [done|].
    rewrite filter_cons, decide_True; [by rewrite IH|]. by destruct (Org_Name org).
Qed.

(** X23. [ListOrgResources] returns without error exactly when its three
    calls succeed, made in the order apps, service instances, spaces, each on
    the platform as the call before left it, the two listings with the query
    [q=organization_guid:<guid>]; what it returns then is what they
    answered. *)
Theorem org_resources_ok_iff (org : Org) (w w' : W) (spaces : list Space)
    (apps : list App) (instances : list ServiceInstance) :
  let query : gmap string (list string) :=
    {[ "q" := ["organization_guid:" +:+ Org_Guid org] ]} in
  ListOrgResources client org w = ((spaces, apps, instances, None), w')
  ↔ ∃ w1 w2,
      ListAppsByQuery (Platform_Client client) query w = (inl apps, w1)
      ∧ ListServiceInstancesByQuery client query w1 = ((instances, None), w2)
      ∧ OrgSpaces client (Org_Guid org) w2 = ((spaces, None), w').
Proof.
  intros query. unfold ListOrgResources. fold query.
  destruct (ListAppsByQuery (Platform_Client client) query w)
    as [[apps0|e] w1] eqn:E1.
  - destruct (ListServiceInstancesByQuery client query w1)
      as [[is0 [e|]] w2] eqn:E2.
    + split; [done|]. intros (? & ? & [= <- <-] & ? & _). congruence.
    + destruct (OrgSpaces client (Org_Guid org) w2) as [[ss0 e] w3] eqn:E3. split.
      * intros [= <- <- <- -> <-]. by exists w1, w2.
      * intros (? & ? & [= <- <-] & E2' & E3'). rewrite E2 in E2'.
        injection E2' as <- <-. rewrite E3 in E3'. by injection E3' as <- <- <-.
  - split; [done|]. by intros (? & ? & ? & _).
Qed.

End listing_more.


(** * Mail *)

Section mail_more.
Context {W S : Type} (gomail : Mailer W S).

(** X24. [SendMail] without recipients returns no error and neither dials nor
    sends; with recipients it dials once, to the host and port and with the
    credentials of the options, with a TLS configuration exactly when a
    certificate is configured; a failed dial is returned and nothing is
    sent; otherwise it returns what sending one message answers, whose
    headers are From, Subject and To, with all the recipients under To. *)
Theorem SendMail_outcome (opts : SMTPOptions) (sender subject body : string)
    (recipients : list string) (w : W) :
  (recipients = [] → SendMail gomail opts sender subject body recipients w = (None, w))
  ∧ (recipients ≠ [] →
     ∃ d m,
       SendMail gomail opts sender subject body recipients w
       = match Dial gomail d w with
         | (inr err, w) => (Some err, w)
         | (inl s, w) => Send gomail s m w
         end
       ∧ Dialer_Host d = SMTPHost opts ∧ Dialer_Port d = SMTPPort opts
       ∧ Dialer_Username d = SMTPUser opts ∧ Dialer_Password d = SMTPPass opts
       ∧ Dialer_TLSConfig d
         = (if decide (SMTPCert opts = EmptyString) then None
            else Some (mkTLSConfig (SMTPHost opts) [SMTPCert opts]))
       ∧ Message_Headers m !! "To" = Some recipients
       ∧ Message_Headers m !! "From" = Some [sender]
       ∧ Message_Headers m !! "Subject" = Some [subject]
       ∧ dom (Message_Headers m) = ({[ "From"; "Subject"; "To" ]} : gset string)
       ∧ Message_ContentType m = "text/html" ∧ Message_Body m = body).
Proof.
  unfold SendMail. split.
  - by intros ->.
  - intros Hne. destruct recipients as [|r rs]; [done|]. cbn [length Nat.eqb].
    eexists _, _. split; [reflexivity|]. cbv zeta.
    destruct (String.eqb_spec (SMTPCert opts) EmptyString) as [E|E]; simpl.
    + rewrite decide_True by done. split_and!; first [done | set_solver].
    + rewrite decide_False by done. split_and!; first [done | set_solver].
Qed.

End mail_more.

(** * Further examples at concrete inputs *)

(** [sandbox_orgs_by_prefix] on the platform of the examples. *)
Lemma sandbox_orgs_by_prefix_witness :
  ListOrgs example_org.platform 0%nat = ((example_org.orgs, None), 1%nat)
  ∧ ∃ sandboxes,
      ListSandboxOrgs example_org.platform "sandbox-" 0%nat
      = ((sandboxes, None), 1%nat)
      ∧ sublist sandboxes example_org.orgs
      ∧ (∀ org, org ∈ sandboxes ↔
           org ∈ example_org.orgs ∧ ∃ rest, Org_Name org = "sandbox-" +:+ rest)
      ∧ sandboxes
        = filter (λ org, String.prefix "sandbox-" (Org_Name org) = true)
            example_org.orgs.
Proof.
  split; [reflexivity|].
  exact (sandbox_orgs_by_prefix example_org.platform "sandbox-" 0%nat 1%nat
           example_org.orgs None eq_refl).
Defined.

(** [sandbox_orgs_longer_prefix] with the prefixes [sandbox-] and
    [sandbox-e]. *)
Lemma sandbox_orgs_longer_prefix_witness :
  ListOrgs example_org.platform 0%nat = ((example_org.orgs, None), 1%nat)
  ∧ sublist (ListSandboxOrgs example_org.platform ("sandbox-" +:+ "e") 0%nat).1.1
            (ListSandboxOrgs example_org.platform "sandbox-" 0%nat).1.1
  ∧ ListSandboxOrgs example_org.platform EmptyString 0%nat
    = ((example_org.orgs, None), 1%nat).
Proof.
  split; [reflexivity|].
  exact (sandbox_orgs_longer_prefix example_org.platform "sandbox-" "e" 0%nat
           1%nat example_org.orgs eq_refl).
Defined.

(** [recipients_members] on the roles of the examples. *)
Lemma recipients_members_witness :
  ListRecipients example_org.parseAddress example_org.userGUIDs example_org.roles
  = (["alice@example.com"], ["u1"], ["u1"; "u2"])
  ∧ (∀ u, u ∈ ["alice@example.com"] ↔
       ∃ role, role ∈ example_org.roles ∧ Known example_org.userGUIDs role
         ∧ (∃ a, example_org.parseAddress (SpaceRole_Username role) = inl a)
         ∧ SpaceRole_Username role = u)
  ∧ (∀ g, g ∈ ["u1"] ↔
       ∃ role, role ∈ example_org.roles ∧ Known example_org.userGUIDs role
         ∧ "space_developer" ∈ SpaceRole_SpaceRoles role
         ∧ SpaceRole_Guid role = g)
  ∧ (∀ g, g ∈ ["u1"; "u2"] ↔
       ∃ role, role ∈ example_org.roles ∧ Known example_org.userGUIDs role
         ∧ "space_manager" ∈ SpaceRole_SpaceRoles role
         ∧ SpaceRole_Guid role = g).
Proof.
  assert (Hrun : ListRecipients example_org.parseAddress example_org.userGUIDs
                   example_org.roles
                 = (["alice@example.com"], ["u1"], ["u1"; "u2"]))
    by (vm_compute; reflexivity).
  split; [exact Hrun|].
  exact (recipients_members example_org.parseAddress _ _ _ _ _ Hrun).
Defined.

(** [recipients_ignore_map_values] on two maps with the keys of Alice and
    Bob and different booleans. *)
Lemma recipients_ignore_map_values_witness :
  dom example_org.userGUIDs = dom example_org.userGUIDs'
  ∧ ListRecipients example_org.parseAddress example_org.userGUIDs example_org.roles
    = ListRecipients example_org.parseAddress example_org.userGUIDs'
        example_org.roles.
Proof.
  assert (Hdom : dom example_org.userGUIDs = dom example_org.userGUIDs')
    by (vm_compute; reflexivity).
  split; [exact Hdom|].
  exact (recipients_ignore_map_values example_org.parseAddress _ _
           example_org.roles Hdom).
Defined.

(** [first_resource_reads_own_space] on space A: an app of space B whose
    timestamp does not parse makes no difference. *)
Lemma first_resource_reads_own_space_witness :
  inSpace App_SpaceGuid (Space_Guid example.spaceA) example.apps
  = inSpace App_SpaceGuid (Space_Guid example.spaceA) [example.appBad; example.appA]
  ∧ inSpace ServiceInstance_SpaceGuid (Space_Guid example.spaceA) example.instances
    = inSpace ServiceInstance_SpaceGuid (Space_Guid example.spaceA) []
  ∧ GetFirstResource rfc3339.Parse example.spaceA example.apps example.instances
    = GetFirstResource rfc3339.Parse example.spaceA
        [example.appBad; example.appA] [].
Proof.
  assert (Ha : inSpace App_SpaceGuid (Space_Guid example.spaceA) example.apps
               = inSpace App_SpaceGuid (Space_Guid example.spaceA)
                   [example.appBad; example.appA])
    by (vm_compute; reflexivity).
  assert (Hi : inSpace ServiceInstance_SpaceGuid (Space_Guid example.spaceA)
                 example.instances
               = inSpace ServiceInstance_SpaceGuid (Space_Guid example.spaceA) [])
    by (vm_compute; reflexivity).
  split_and!; [exact Ha | exact Hi |].
  exact (first_resource_reads_own_space rfc3339.Parse _ _ _ _ _ Ha Hi).
Defined.

(** [first_malformed_resource_reported] on space B with a well-formed app,
    the malformed app and a service instance. *)
Lemma first_malformed_resource_reported_witness :
  resourcesOf example.spaceB [example.appA; example_org.appB; example.appBad]
    example.instances
  = [inl example_org.appB] ++ inl example.appBad :: [inr example.instanceB]
  ∧ (∀ x, x ∈ [inl example_org.appB] →
       ∃ c, rfc3339.Parse time.RFC3339Nano (createdAt x) = inl c)
  ∧ rfc3339.Parse time.RFC3339Nano (createdAt (inl example.appBad))
    = inr (errorString "cannot parse yesterday")
  ∧ (GetFirstResource rfc3339.Parse example.spaceB
       [example.appA; example_org.appB; example.appBad] example.instances).2
    = Some (errorString "cannot parse yesterday").
Proof.
  assert (Hr : resourcesOf example.spaceB
                 [example.appA; example_org.appB; example.appBad] example.instances
               = [inl example_org.appB] ++ inl example.appBad
                   :: [inr example.instanceB])
    by (vm_compute; reflexivity).
  assert (Hpre : ∀ x : App + ServiceInstance, x ∈ [inl example_org.appB] →
            ∃ c, rfc3339.Parse time.RFC3339Nano (createdAt x) = inl c)
    by (intros x Hx; members; eexists; vm_compute; reflexivity).
  assert (He : rfc3339.Parse time.RFC3339Nano (createdAt (inl example.appBad))
               = inr (errorString "cannot parse yesterday"))
    by (vm_compute; reflexivity).
  split_and!; [exact Hr | exact Hpre | exact He |].
  exact (first_malformed_resource_reported rfc3339.Parse _ _ _ _ _ _ _ Hr Hpre He).
Defined.

(** [first_resource_order_irrelevant] on space A with its three apps and its
    three service instances, both lists reversed. *)
Lemma first_resource_order_irrelevant_witness :
  example_times.apps
  ≡ₚ [example_times.appA3; example.appD; example_times.appA2; example_times.appA1]
  ∧ example_times.instances
    ≡ₚ [example_times.instanceA3; example_times.instanceB1;
        example_times.instanceA2; example_times.instanceA1]
  ∧ ParsesNonZero rfc3339.Parse example.spaceA example_times.apps
      example_times.instances
  ∧ GetFirstResource rfc3339.Parse example.spaceA example_times.apps
      example_times.instances
    = GetFirstResource rfc3339.Parse example.spaceA
        [example_times.appA3; example.appD; example_times.appA2;
         example_times.appA1]
        [example_times.instanceA3; example_times.instanceB1;
         example_times.instanceA2; example_times.instanceA1].
Proof.
  assert (Pa : example_times.apps
               ≡ₚ [example_times.appA3; example.appD; example_times.appA2;
                   example_times.appA1])
    by (symmetry; apply (reverse_Permutation example_times.apps)).
  assert (Pi : example_times.instances
               ≡ₚ [example_times.instanceA3; example_times.instanceB1;
                   example_times.instanceA2; example_times.instanceA1])
    by (symmetry; apply (reverse_Permutation example_times.instances)).
  split_and!; [exact Pa | exact Pi | apply times_parse |].
  exact (first_resource_order_irrelevant rfc3339.Parse _ _ _ _ _ Pa Pi
           (times_parse example.spaceA)).
Defined.

(** [age_of_whole_days] twenty days after the anchor. *)
Lemma age_of_whole_days_witness :
  example.day 20 - example.day 0 = 20 * (24 * time.Hour)
  ∧ -106751 ≤ 20 ≤ 106751
  ∧ deltaOf (example.day 20) (example.day 0) = 20.
Proof.
  assert (H : example.day 20 - example.day 0 = 20 * (24 * time.Hour))
    by (vm_compute; reflexivity).
  assert (Hm : -106751 ≤ 20 ≤ 106751) by lia.
  split_and!; [exact H | lia | lia |].
  exact (age_of_whole_days (example.day 20) (example.day 0) 20 H Hm).
Defined.

(** [purge_list_reads_listed_spaces] with space A alone listed: the
    malformed app of space B makes no difference. *)
Lemma purge_list_reads_listed_spaces_witness :
  (∀ space, space ∈ [example.spaceA] →
     inSpace App_SpaceGuid (Space_Guid space) example.apps
     = inSpace App_SpaceGuid (Space_Guid space) [example.appBad; example.appA]
     ∧ inSpace ServiceInstance_SpaceGuid (Space_Guid space) example.instances
       = inSpace ServiceInstance_SpaceGuid (Space_Guid space) [])
  ∧ ListPurgeSpaces rfc3339.Parse [example.spaceA] example.apps example.instances
      (example.day 20) 7 14 example.epoch
    = ListPurgeSpaces rfc3339.Parse [example.spaceA]
        [example.appBad; example.appA] [] (example.day 20) 7 14 example.epoch.
Proof.
  assert (H : ∀ space, space ∈ [example.spaceA] →
     inSpace App_SpaceGuid (Space_Guid space) example.apps
     = inSpace App_SpaceGuid (Space_Guid space) [example.appBad; example.appA]
     ∧ inSpace ServiceInstance_SpaceGuid (Space_Guid space) example.instances
       = inSpace ServiceInstance_SpaceGuid (Space_Guid space) [])
    by (intros space Hs; members; split; vm_compute; reflexivity).
  split; [exact H|].
  exact (purge_list_reads_listed_spaces rfc3339.Parse _ _ _ _ _ _ _ _ _ H).
Defined.

(** [entries_follow_space_order] on the scenario. *)
Lemma entries_follow_space_order_witness :
  ListPurgeSpaces rfc3339.Parse example.spaces example.apps example.instances
    (example.day 20) 7 14 example.epoch
  = ([example.entryB], [example.entryA], None)
  ∧ sublist (SpaceDetails_Space <$> [example.entryB]) example.spaces
  ∧ sublist (SpaceDetails_Space <$> [example.entryA]) example.spaces
  ∧ (length [example.entryB] + length [example.entryA]
     ≤ length example.spaces)%nat.
Proof.
  assert (Hrun : ListPurgeSpaces rfc3339.Parse example.spaces example.apps
                   example.instances (example.day 20) 7 14 example.epoch
                 = ([example.entryB], [example.entryA], None))
    by (vm_compute; reflexivity).
  split; [exact Hrun|].
  exact (entries_follow_space_order rfc3339.Parse _ _ _ _ _ _ _ _ _ _ Hrun).
Defined.

(** [inverted_thresholds_never_notify] on the scenario with the thresholds
    exchanged. *)
Lemma inverted_thresholds_never_notify_witness :
  7 ≤ 14
  ∧ (ListPurgeSpaces rfc3339.Parse example.spaces example.apps example.instances
       (example.day 20) 14 7 example.epoch).1.1 = [].
Proof.
  assert (Hle : 7 ≤ 14) by lia.
  split; [exact Hle|].
  exact (inverted_thresholds_never_notify rfc3339.Parse example.spaces
           example.apps example.instances (example.day 20) 14 7 example.epoch Hle).
Defined.

(** [thresholds_out_of_reach] on the scenario 200000 days on: with
    thresholds of 106752 and 106753 days no space is placed, though every
    space is far older; with a purge threshold of 106751 days all three are
    purged. *)
Lemma thresholds_out_of_reach_witness :
  ListPurgeSpaces rfc3339.Parse example.spaces example.apps example.instances
    (example.day 200000) 106752 106753 example.epoch
  = ([], [], None)
  ∧ 106753 * (24 * time.Hour) < example.day 200000 - Timestamp example.entryA
  ∧ ListPurgeSpaces rfc3339.Parse example.spaces example.apps example.instances
      (example.day 200000) 7 106751 example.epoch
    = ([], [example.entryA; example.entryB; example_times.entryD], None)
  ∧ 106751 < 106753 ∧ 106751 < 106752
  ∧ (106751 < 106753 → ([] : list SpaceDetails) = [])
  ∧ (106751 < 106752 → ([] : list SpaceDetails) = []).
Proof.
  assert (Hrun : ListPurgeSpaces rfc3339.Parse example.spaces example.apps
                   example.instances (example.day 200000) 106752 106753
                   example.epoch
                 = ([], [], None))
    by (vm_compute; reflexivity).
  split_and!; [exact Hrun | vm_compute; reflexivity | vm_compute; reflexivity
              | lia | lia |..];
    apply (thresholds_out_of_reach rfc3339.Parse _ _ _ _ _ _ _ _ _ _ Hrun).
Defined.

(** [entries_age_in_days] on the scenario. *)
Lemma entries_age_in_days_witness :
  ListPurgeSpaces rfc3339.Parse example.spaces example.apps example.instances
    (example.day 20) 7 14 example.epoch
  = ([example.entryB], [example.entryA], None)
  ∧ (∀ d, d ∈ [example.entryA] → 1 ≤ 14 →
       (14 - 1) * (24 * time.Hour) < example.day 20 - Timestamp d)
  ∧ (∀ d, d ∈ [example.entryB] → 1 ≤ 7 →
       (7 - 1) * (24 * time.Hour) < example.day 20 - Timestamp d)
  ∧ (∀ d, d ∈ [example.entryB] → 0 ≤ 14 ≤ 106751 →
       example.day 20 - Timestamp d < 14 * (24 * time.Hour)).
Proof.
  assert (Hrun : ListPurgeSpaces rfc3339.Parse example.spaces example.apps
                   example.instances (example.day 20) 7 14 example.epoch
                 = ([example.entryB], [example.entryA], None))
    by (vm_compute; reflexivity).
  split; [exact Hrun|].
  exact (entries_age_in_days rfc3339.Parse _ _ _ _ _ _ _ _ _ _ Hrun).
Defined.

(** [old_spaces_are_purged] on space A of the scenario, twenty days old. *)
Lemma old_spaces_are_purged_witness :
  ListPurgeSpaces rfc3339.Parse example.spaces example.apps example.instances
    (example.day 20) 7 14 example.epoch
  = ([example.entryB], [example.entryA], None)
  ∧ example.spaceA ∈ example.spaces
  ∧ GetFirstResource rfc3339.Parse example.spaceA example.apps example.instances
    = (example.day 0, None)
  ∧ time.IsZero (example.day 0) = false
  ∧ 0 ≤ 14 ≤ 106751
  ∧ 14 * (24 * time.Hour)
    ≤ example.day 20 - anchorOf example.epoch (example.day 0)
  ∧ mkSpaceDetails (anchorOf example.epoch (example.day 0)) example.spaceA
    ∈ [example.entryA].
Proof.
  assert (Hrun : ListPurgeSpaces rfc3339.Parse example.spaces example.apps
                   example.instances (example.day 20) 7 14 example.epoch
                 = ([example.entryB], [example.entryA], None))
    by (vm_compute; reflexivity).
  assert (Hin : example.spaceA ∈ example.spaces) by member.
  assert (G : GetFirstResource rfc3339.Parse example.spaceA example.apps
                example.instances = (example.day 0, None))
    by (vm_compute; reflexivity).
  assert (Hz : time.IsZero (example.day 0) = false) by (vm_compute; reflexivity).
  assert (Hp : 0 ≤ 14 ≤ 106751) by lia.
  assert (Hold : 14 * (24 * time.Hour)
                 ≤ example.day 20 - anchorOf example.epoch (example.day 0))
    by (vm_compute; discriminate).
  split_and!; [exact Hrun | exact Hin | exact G | exact Hz | lia | lia
              | exact Hold |].
  exact (old_spaces_are_purged rfc3339.Parse _ _ _ _ _ _ _ _ _ _ _
           Hrun Hin G Hz Hp Hold).
Defined.

(** [aging_spaces_are_notified] on space B of the scenario, ten days old. *)
Lemma aging_spaces_are_notified_witness :
  ListPurgeSpaces rfc3339.Parse example.spaces example.apps example.instances
    (example.day 20) 7 14 example.epoch
  = ([example.entryB], [example.entryA], None)
  ∧ example.spaceB ∈ example.spaces
  ∧ GetFirstResource rfc3339.Parse example.spaceB example.apps example.instances
    = (example.day 10, None)
  ∧ time.IsZero (example.day 10) = false
  ∧ 0 ≤ 7 ≤ 106751 ∧ 1 ≤ 14
  ∧ 7 * (24 * time.Hour)
    ≤ example.day 20 - anchorOf example.epoch (example.day 10)
  ∧ example.day 20 - anchorOf example.epoch (example.day 10)
    ≤ (14 - 1) * (24 * time.Hour)
  ∧ mkSpaceDetails (anchorOf example.epoch (example.day 10)) example.spaceB
    ∈ [example.entryB].
Proof.
  assert (Hrun : ListPurgeSpaces rfc3339.Parse example.spaces example.apps
                   example.instances (example.day 20) 7 14 example.epoch
                 = ([example.entryB], [example.entryA], None))
    by (vm_compute; reflexivity).
  assert (Hin : example.spaceB ∈ example.spaces) by member.
  assert (G : GetFirstResource rfc3339.Parse example.spaceB example.apps
                example.instances = (example.day 10, None))
    by (vm_compute; reflexivity).
  assert (Hz : time.IsZero (example.day 10) = false) by (vm_compute; reflexivity).
  assert (Hn : 0 ≤ 7 ≤ 106751) by lia.
  assert (Hp : 1 ≤ 14) by lia.
  assert (Hold : 7 * (24 * time.Hour)
                 ≤ example.day 20 - anchorOf example.epoch (example.day 10))
    by (vm_compute; discriminate).
  assert (Hyoung : example.day 20 - anchorOf example.epoch (example.day 10)
                   ≤ (14 - 1) * (24 * time.Hour))
    by (vm_compute; discriminate).
  split_and!; [exact Hrun | exact Hin | exact G | exact Hz | lia | lia | lia
              | exact Hold | exact Hyoung |].
  exact (aging_spaces_are_notified rfc3339.Parse _ _ _ _ _ _ _ _ _ _ _
           Hrun Hin G Hz Hn Hp Hold Hyoung).
Defined.

(** [young_spaces_are_left] on space D of the scenario, two days old. *)
Lemma young_spaces_are_left_witness :
  ListPurgeSpaces rfc3339.Parse example.spaces example.apps example.instances
    (example.day 20) 7 14 example.epoch
  = ([example.entryB], [example.entryA], None)
  ∧ GetFirstResource rfc3339.Parse example.spaceD example.apps example.instances
    = (example.day 18, None)
  ∧ 1 ≤ 7 ≤ 14
  ∧ example.day 20 - anchorOf example.epoch (example.day 18)
    ≤ (7 - 1) * (24 * time.Hour)
  ∧ ∀ d, d ∈ [example.entryB] ++ [example.entryA] →
      Space_Guid (SpaceDetails_Space d) ≠ Space_Guid example.spaceD.
Proof.
  assert (Hrun : ListPurgeSpaces rfc3339.Parse example.spaces example.apps
                   example.instances (example.day 20) 7 14 example.epoch
                 = ([example.entryB], [example.entryA], None))
    by (vm_compute; reflexivity).
  assert (G : GetFirstResource rfc3339.Parse example.spaceD example.apps
                example.instances = (example.day 18, None))
    by (vm_compute; reflexivity).
  assert (Hth : 1 ≤ 7 ≤ 14) by lia.
  assert (Hyoung : example.day 20 - anchorOf example.epoch (example.day 18)
                   ≤ (7 - 1) * (24 * time.Hour))
    by (vm_compute; discriminate).
  split_and!; [exact Hrun | exact G | lia | lia | exact Hyoung |].
  exact (young_spaces_are_left rfc3339.Parse _ _ _ _ _ _ _ _ _ _ _ _
           Hrun G Hth Hyoung).
Defined.
